(** * Live.py: filtering and normalisation of a sports schedule

    Shallow embedding of [src/Live.py] and the properties of its
    pipeline.

    Conventions of the embedding.
    - A Python [str] is a list of characters.  The characters are read on
      the 7-bit range (code points 0..127); the classification functions
      below are those of Python on that range, and a code above 127 is
      treated as an uncased, non-blank, non-word character.
    - Regular expressions are values of the type [Re.regex], run by a
      backtracking matcher with the priorities of Python's [re] (greedy
      repetition, left alternative first, leftmost match).
    - A raised exception is a value [Raise e] of the type [exc]; the
      functions that can raise return [exc A].
    - The time-zone database ([pytz]) and the clock ([utcnow]) are
      parameters of the functions that consult them.
    - [int] is modelled without the limit that recent Pythons put on the
      number of digits; [strftime('%Y')] prints the year as the C library
      of Linux does, without padding.
    - The counters and the tally of categories that [main] prints are left
      out: they do not reach the output file.
    - A value of the document whose JSON type is not the one of the feed
      is kept where the script tests for it or raises on it; a channel
      identifier is a string or an integer. *)

From Stdlib Require Import Ascii String ZArith NArith Lia Bool Arith List Setoid.
Import ListNotations.

Set Implicit Arguments.

(** ** Python strings *)

Definition str := list ascii.

Definition py (s : string) : str := list_ascii_of_string s.
Arguments py s%_string.

Module Chr.

Definition code (c : ascii) : N := N_of_ascii c.

Definition between (lo hi : N) (c : ascii) : bool :=
  (N.leb lo (code c) && N.leb (code c) hi)%bool.

Definition isdigit (c : ascii) : bool := between 48 57 c.
Definition isupper (c : ascii) : bool := between 65 90 c.
Definition islower (c : ascii) : bool := between 97 122 c.
Definition isalpha (c : ascii) : bool := isupper c || islower c.
Definition isalnum (c : ascii) : bool := isalpha c || isdigit c.

(** [\w] of [re] *)
Definition isword (c : ascii) : bool := isalnum c || N.eqb (code c) 95.

(** [str.isspace], also [\s] of [re]: tab to carriage return, the four
    separators 28..31 and the blank *)
Definition isspace (c : ascii) : bool := between 9 13 c || between 28 32 c.

(** the blanks that [int] skips: tab to carriage return and the blank *)
Definition isspace_c (c : ascii) : bool := between 9 13 c || N.eqb (code c) 32.

Definition lower (c : ascii) : ascii :=
  if isupper c then ascii_of_N (code c + 32) else c.

Definition upper (c : ascii) : ascii :=
  if islower c then ascii_of_N (code c - 32) else c.

Definition digit_val (c : ascii) : Z := Z.of_N (code c - 48).

Definition eqb_i (a b : ascii) : bool := Ascii.eqb (lower a) (lower b).

End Chr.

Module PyStr.

(** [s.lower()] *)
Definition lower (s : str) : str := map Chr.lower s.

Fixpoint dropwhile (f : ascii -> bool) (s : str) : str :=
  match s with
  | [] => []
  | c :: t => if f c then dropwhile f t else s
  end.

Definition lstrip_by (f : ascii -> bool) (s : str) : str := dropwhile f s.
Definition rstrip_by (f : ascii -> bool) (s : str) : str :=
  rev (dropwhile f (rev s)).
Definition strip_by (f : ascii -> bool) (s : str) : str :=
  rstrip_by f (lstrip_by f s).

(** [s.strip()] *)
Definition strip (s : str) : str := strip_by Chr.isspace s.

(** [s.strip(chars)] *)
Definition strip_chars (chars : str) (s : str) : str :=
  strip_by (fun c => existsb (Ascii.eqb c) chars) s.

Fixpoint starts_with (p s : str) : bool :=
  match p, s with
  | [], _ => true
  | _ :: _, [] => false
  | a :: p', b :: s' => Ascii.eqb a b && starts_with p' s'
  end.

(** [sub in s] *)
Fixpoint contains (sub s : str) : bool :=
  starts_with sub s ||
  match s with
  | [] => false
  | _ :: t => contains sub t
  end.

(** [s.split()]: the maximal runs of non-blank characters. [cur] is the
    token being read, reversed. *)
Fixpoint split_ws_aux (cur : str) (s : str) : list str :=
  match s with
  | [] => match cur with [] => [] | _ => [rev cur] end
  | c :: t =>
      if Chr.isspace c
      then match cur with
           | [] => split_ws_aux [] t
           | _ => rev cur :: split_ws_aux [] t
           end
      else split_ws_aux (c :: cur) t
  end.

Definition split_ws (s : str) : list str := split_ws_aux [] s.

(** [s.split(sep, maxsplit)] for a non-empty [sep]; [maxsplit = None] is
    the unbounded split.  [skip] counts the characters of a separator
    still to be passed over, [cur] is the piece being read, reversed. *)
Fixpoint split_aux (sep : str) (maxsplit : option nat) (skip : nat)
    (cur : str) (s : str) : list str :=
  match s with
  | [] => [rev cur]
  | c :: t =>
      match skip with
      | S k => split_aux sep maxsplit k cur t
      | O =>
          let allowed := match maxsplit with Some O => false | _ => true end in
          if allowed && starts_with sep s
          then rev cur ::
               split_aux sep (option_map pred maxsplit) (length sep - 1) [] t
          else split_aux sep maxsplit 0 (c :: cur) t
      end
  end.

Definition split (sep : str) (maxsplit : option nat) (s : str) : list str :=
  split_aux sep maxsplit 0 [] s.

(** [s.replace(old, new)] for a non-empty [old] *)
Fixpoint replace_aux (old new : str) (skip : nat) (s : str) : str :=
  match s with
  | [] => []
  | c :: t =>
      match skip with
      | S k => replace_aux old new k t
      | O =>
          if starts_with old s
          then new ++ replace_aux old new (length old - 1) t
          else c :: replace_aux old new 0 t
      end
  end.

Definition replace (old new : str) (s : str) : str := replace_aux old new 0 s.

(** [s.title()]: a letter that follows a letter is lower-cased, any other
    letter is upper-cased.  The letters are those of the 7-bit range: the
    properties that depend on [title] are stated for 7-bit text. *)
Fixpoint title_aux (prev_cased : bool) (s : str) : str :=
  match s with
  | [] => []
  | c :: t =>
      (if prev_cased then Chr.lower c else Chr.upper c)
        :: title_aux (Chr.isalpha c) t
  end.

Definition title (s : str) : str := title_aux false s.

(** [sep.join(parts)] *)
Fixpoint join (sep : str) (parts : list str) : str :=
  match parts with
  | [] => []
  | [p] => p
  | p :: ps => p ++ sep ++ join sep ps
  end.

(** [a == b] *)
Fixpoint eqb (a b : str) : bool :=
  match a, b with
  | [], [] => true
  | x :: a', y :: b' => Ascii.eqb x y && eqb a' b'
  | _, _ => false
  end.

(** The digits of [int]: a digit, then digits each optionally preceded by
    one underscore. *)
Fixpoint int_digits (acc : Z) (prev_digit : bool) (s : str) : option Z :=
  match s with
  | [] => if prev_digit then Some acc else None
  | c :: t =>
      if Chr.isdigit c then int_digits (acc * 10 + Chr.digit_val c) true t
      else if Ascii.eqb c "_" && prev_digit then int_digits acc false t
      else None
  end.

(** [int(s)]; [None] is the [ValueError] *)
Definition int (s : str) : option Z :=
  match strip_by Chr.isspace_c s with
  | "-"%char :: t => option_map Z.opp (int_digits 0 false t)
  | "+"%char :: t => int_digits 0 false t
  | t => int_digits 0 false t
  end.

(** decimal digits of a natural number, as [str(n)] prints them *)
Fixpoint digits_fuel (fuel : nat) (n : N) (acc : str) : str :=
  match fuel with
  | O => acc
  | S f =>
      let d := ascii_of_N (48 + N.modulo n 10) in
      if N.ltb n 10 then d :: acc else digits_fuel f (N.div n 10) (d :: acc)
  end.

Definition of_N (n : N) : str := digits_fuel (S (N.to_nat (N.log2 n))) n [].

(** [str(z)] for an integer *)
Definition of_Z (z : Z) : str :=
  match z with
  | Zneg p => "-"%char :: of_N (Npos p)
  | _ => of_N (Z.to_N z)
  end.

(** [n] printed on at least [w] digits, padded with zeros *)
Definition pad (w : nat) (n : N) : str :=
  let d := of_N n in repeat "0"%char (w - length d) ++ d.

End PyStr.


(** ** Regular expressions *)

Module Re.

(** The constructs that the patterns of the script use.  [Cls f] is one
    character of a class, [Wb] is [\b], [Bos] is [^] (without MULTILINE)
    and [Grp a] is the capturing group number 1. *)
Inductive regex : Type :=
| Eps : regex
| Cls : (ascii -> bool) -> regex
| Cat : regex -> regex -> regex
| Alt : regex -> regex -> regex
| Star : regex -> regex
| Wb : regex
| Bos : regex
| Grp : regex -> regex.

(** a character, as written in a pattern *)
Definition chr (c : ascii) : regex := Cls (Ascii.eqb c).
(** the same under IGNORECASE *)
Definition chr_i (c : ascii) : regex := Cls (Chr.eqb_i c).

Fixpoint seq (l : list regex) : regex :=
  match l with
  | [] => Eps
  | [r] => r
  | r :: t => Cat r (seq t)
  end.

(** a literal run of characters *)
Definition lit (s : string) : regex := seq (map chr (py s)).
Definition lit_i (s : string) : regex := seq (map chr_i (py s)).

Definition plus (r : regex) : regex := Cat r (Star r).
Definition opt (r : regex) : regex := Alt r Eps.

Definition digit : regex := Cls Chr.isdigit.
Definition space : regex := Cls Chr.isspace.

(** [\b]: exactly one of the two neighbours is a word character *)
Definition at_boundary (prev : option ascii) (s : str) : bool :=
  xorb (match prev with Some c => Chr.isword c | None => false end)
       (match s with c :: _ => Chr.isword c | [] => false end).

Section Matcher.

Variable R : Type.

(** A continuation receives the character before the position, the text
    from the position on, and the text of group 1. *)
Definition cont : Type := option ascii -> str -> str -> option R.

(** The repetition of [body], greedy: one more round first, the
    continuation when that fails.  A round that matches the empty text is
    refused, so [n] rounds suffice on a text shorter than [n]. *)
Fixpoint star_loop (body : option ascii -> str -> str -> cont -> option R)
    (k : cont) (n : nat) (prev : option ascii) (s : str) (g : str)
    {struct n} : option R :=
  match n with
  | O => k prev s g
  | S n' =>
      match body prev s g
              (fun p' s' g' =>
                 if length s' <? length s then star_loop body k n' p' s' g'
                 else None) with
      | Some x => Some x
      | None => k prev s g
      end
  end.

(** [run r prev s g k]: match [r] at the position whose text is [s] and
    whose previous character is [prev], then go on with [k]; the
    alternatives are tried in Python's order and the first success is the
    result. *)
Fixpoint run (r : regex) (prev : option ascii) (s : str) (g : str)
    (k : cont) {struct r} : option R :=
  match r with
  | Eps => k prev s g
  | Cls f =>
      match s with
      | c :: t => if f c then k (Some c) t g else None
      | [] => None
      end
  | Cat a b => run a prev s g (fun p' s' g' => run b p' s' g' k)
  | Alt a b =>
      match run a prev s g k with
      | Some x => Some x
      | None => run b prev s g k
      end
  | Star a => star_loop (run a) k (S (length s)) prev s g
  | Wb => if at_boundary prev s then k prev s g else None
  | Bos => match prev with None => k prev s g | Some _ => None end
  | Grp a =>
      run a prev s g
        (fun p' s' _ => k p' s' (firstn (length s - length s') s))
  end.

End Matcher.

(** A match at a position: its length and the text of group 1. *)
Definition match_at (r : regex) (prev : option ascii) (s : str)
  : option (nat * str) :=
  run r prev s [] (fun _ s' g => Some (length s - length s', g)).

(** [rx.match(s)] as a truth value *)
Definition matches_start (r : regex) (s : str) : bool :=
  match match_at r None s with Some _ => true | None => false end.

Fixpoint search_from (r : regex) (prev : option ascii) (s : str) : bool :=
  match match_at r prev s with
  | Some _ => true
  | None =>
      match s with
      | [] => false
      | c :: t => search_from r (Some c) t
      end
  end.

(** [rx.search(s)] as a truth value *)
Definition search (r : regex) (s : str) : bool := search_from r None s.

(** [rx.sub(repl, s)], where [repl] maps the text of group 1 to the
    replacement.  [skip] counts the characters of the last match still to
    be passed over.  An empty match inserts the replacement and keeps the
    character. *)
Fixpoint sub_aux (r : regex) (repl : str -> str) (skip : nat)
    (prev : option ascii) (s : str) : str :=
  match skip with
  | S k =>
      match s with
      | [] => []
      | c :: t => sub_aux r repl k (Some c) t
      end
  | O =>
      match match_at r prev s with
      | Some (S n, g) =>
          repl g ++
          match s with
          | [] => []
          | c :: t => sub_aux r repl n (Some c) t
          end
      | Some (O, g) =>
          repl g ++
          match s with
          | [] => []
          | c :: t => c :: sub_aux r repl 0 (Some c) t
          end
      | None =>
          match s with
          | [] => []
          | c :: t => c :: sub_aux r repl 0 (Some c) t
          end
      end
  end.

Definition sub (r : regex) (repl : str -> str) (s : str) : str :=
  sub_aux r repl 0 None s.

(** [rx.split(s)] for a pattern without group whose matches are not
    empty (an empty match does not split).  [cur] is the piece being read,
    reversed. *)
Fixpoint split_aux (r : regex) (skip : nat) (prev : option ascii)
    (cur : str) (s : str) : list str :=
  match s with
  | [] => [rev cur]
  | c :: t =>
      match skip with
      | S k => split_aux r k (Some c) cur t
      | O =>
          match match_at r prev s with
          | Some (S n, _) => rev cur :: split_aux r n (Some c) [] t
          | _ => split_aux r 0 (Some c) (c :: cur) t
          end
      end
  end.

Definition split (r : regex) (s : str) : list str := split_aux r 0 None [] s.

End Re.


(** ** Exceptions *)

Inductive exn : Type :=
| ValueError | OverflowError | AttributeError | TypeError.

Inductive exc (A : Type) : Type :=
| Ok : A -> exc A
| Raise : exn -> exc A.
Arguments Ok {A} _.
Arguments Raise {A} _.

Definition bind {A B : Type} (m : exc A) (f : A -> exc B) : exc B :=
  match m with
  | Ok a => f a
  | Raise e => Raise e
  end.

Notation "x <- m ;; f" := (bind m (fun x => f))
  (at level 61, m at next level, right associativity).

(** ** Dates and times *)

Module Datetime.

Record datetime : Type := mk {
  year : Z; month : Z; day : Z; hour : Z; minute : Z; second : Z
}.

Definition is_leap (y : Z) : bool :=
  ((y mod 4 =? 0) && (negb (y mod 100 =? 0) || (y mod 400 =? 0)))%Z.

Definition days_in_month (y m : Z) : Z :=
  if (m =? 2)%Z then (if is_leap y then 29 else 28)
  else if ((m =? 4) || (m =? 6) || (m =? 9) || (m =? 11))%Z then 30
  else 31.

Definition fits_c_int (z : Z) : bool :=
  ((-2147483648 <=? z) && (z <=? 2147483647))%Z.

(** [datetime.datetime(year, month, day, hour, minute)]: OverflowError for
    an argument that is no C int, ValueError for one out of range *)
Definition make (y m d hh mm : Z) : exc datetime :=
  if negb (forallb fits_c_int [y; m; d; hh; mm]) then Raise OverflowError
  else if ((1 <=? y) && (y <=? 9999) && (1 <=? m) && (m <=? 12) &&
           (1 <=? d) && (d <=? days_in_month y m) &&
           (0 <=? hh) && (hh <=? 23) && (0 <=? mm) && (mm <=? 59))%Z
  then Ok (mk y m d hh mm 0)
  else Raise ValueError.

Definition pad (w : nat) (z : Z) : str := PyStr.pad w (Z.to_N z).

(** [dt.strftime('%Y%m%d')]; [%Y] is not padded *)
Definition strftime_Ymd (dt : datetime) : str :=
  PyStr.of_Z (year dt) ++ pad 2 (month dt) ++ pad 2 (day dt).

(** [dt.strftime('%d/%m %H:%M')] *)
Definition strftime_dmHM (dt : datetime) : str :=
  pad 2 (day dt) ++ py "/" ++ pad 2 (month dt) ++ py " " ++
  pad 2 (hour dt) ++ py ":" ++ pad 2 (minute dt).

(** the date and the time of [dt.isoformat()], to the second *)
Definition isoformat_seconds (dt : datetime) : str :=
  pad 4 (year dt) ++ py "-" ++ pad 2 (month dt) ++ py "-" ++ pad 2 (day dt) ++
  py "T" ++ pad 2 (hour dt) ++ py ":" ++ pad 2 (minute dt) ++ py ":" ++
  pad 2 (second dt).

(** [dt.replace(microsecond=0).isoformat()] of a datetime in UTC: no
    fraction, and the offset of UTC at the end *)
Definition isoformat_utc (dt : datetime) : str :=
  isoformat_seconds dt ++ py "+00:00".

(** The part of [pytz] that the script uses:
    [TZ_LONDON.localize(naive).astimezone(pytz.UTC)] and
    [dt.astimezone(TZ_ROME)]; both can raise at the ends of the calendar. *)
Record tzdb : Type := {
  london_to_utc : datetime -> exc datetime;
  utc_to_rome : datetime -> exc datetime
}.

(** [datetime.datetime.utcnow()], the fields that the script reads *)
Record today : Type := { now_year : Z; now_month : Z; now_day : Z }.

End Datetime.

(** ** The decoded schedule *)

(** The document is modelled at the shape of the feed: a day label maps to
    categories, a category maps to a list of events.  A value of another
    JSON type is kept where the script tests for it ([DayOther],
    [EventsOther], [ChOther], [TimeOther]) and where it makes the script
    raise ([GameOther], [EventOther], [ChannelsOther]).  [channel_name] is
    a string or absent/null. *)

Inductive channel_id : Type :=
| IdStr : str -> channel_id
| IdInt : Z -> channel_id.

Inductive channel : Type :=
| ChDict : option channel_id -> option str -> channel
| ChOther : channel.

Inductive time_field : Type :=
| TimeMissing : time_field
| TimeStr : str -> time_field
| TimeOther : time_field.

(** An event of the shape of the feed: an object whose [event] is a
    string or absent/null and whose [channels] is a list (absent: the
    empty list). *)
Record game : Type := {
  event : option str;
  time : time_field;
  channels : list channel
}.

(** The value of [game.get('event')]: [EventMissing] is an absent key,
    null or another false value ([0], [false], an empty list or object),
    [EventOther] a true value that is no string. *)
Inductive event_field : Type :=
| EventMissing : event_field
| EventStr : str -> event_field
| EventOther : event_field.

(** The value of [game.get('channels', [])]: [ChannelsOther] is a value
    that [for] cannot iterate (null, a number, a boolean).  A string or an
    object is iterated item by item, each item being no object: it is the
    list of as many [ChOther]. *)
Inductive channels_field : Type :=
| ChannelsList : list channel -> channels_field
| ChannelsOther : channels_field.

(** An element of a list of events, of any JSON type. *)
Inductive game_val : Type :=
| GameDict : event_field -> time_field -> channels_field -> game_val
| GameOther : game_val.

Definition Game (g : game) : game_val :=
  GameDict (match event g with Some s => EventStr s | None => EventMissing end)
           (time g) (ChannelsList (channels g)).
Coercion Game : game >-> game_val.

Inductive events_val : Type :=
| EventsList : list game_val -> events_val
| EventsOther : events_val.

Inductive day_val : Type :=
| DayDict : list (str * events_val) -> day_val
| DayOther : day_val.

Definition schedule : Type := list (str * day_val).


(** ** The output record *)

Record stream : Type := { url : str; stream_title : str }.

Record entry : Type := {
  id : str;
  name : str;
  streams : list stream;
  logo : option str;
  category : str;
  description : str;
  eventStart : str
}.

(** ** The script *)

Module Live.

Import Datetime.

Definition LOGO_BASE : str :=
  py "https://raw.githubusercontent.com/qwertyuiop8899/logo/main".

Definition EXCLUDE_KEYWORDS_CHANNEL : list str := [py "college"; py "youth"].

Definition BASE_CATEGORIES : list str :=
  [py "Italy - Serie A"; py "Italy - Serie B"; py "Italy - Serie C";
   py "UEFA Champions League"; py "UEFA Europa League";
   py "Conference League"; py "Coppa Italia";
   py "Tennis"; py "motor sports"; py "motorsports"].

Definition COPPA_LOGOS : list (str * str) :=
  [(py "UEFA Champions League", py "UEFA_Champions_League.png");
   (py "UEFA Europa League", py "UEFA_Europa_League.png");
   (py "Conference League", py "Conference_League.png");
   (py "Coppa Italia", py "Coppa_Italia.png")].

Definition MONTHS : list (str * Z) :=
  [(py "January", 1); (py "February", 2); (py "March", 3); (py "April", 4);
   (py "May", 5); (py "June", 6); (py "July", 7); (py "August", 8);
   (py "September", 9); (py "October", 10); (py "November", 11);
   (py "December", 12)]%Z.

(** [d.get(k)] on a dict of string keys *)
Fixpoint get {A : Type} (d : list (str * A)) (k : str) : option A :=
  match d with
  | [] => None
  | (k', v) :: t => if PyStr.eqb k k' then Some v else get t k
  end.

(** [k in d] *)
Definition mem {A : Type} (k : str) (d : list (str * A)) : bool :=
  match get d k with Some _ => true | None => false end.

(** [x in l] for a collection of strings *)
Definition elem (x : str) (l : list str) : bool := existsb (PyStr.eqb x) l.

Fixpoint alt (l : list Re.regex) : Re.regex :=
  match l with
  | [] => Re.Cls (fun _ => false)
  | [r] => r
  | r :: t => Re.Alt r (alt t)
  end.

(** [^(?:A\.S\.|AS|A\.C\.|AC|SSC|S\.S\.C\.|SS|U\.S\.|US|U\.C\.|UC|F\.C\.|FC)\s+],
    IGNORECASE *)
Definition TEAM_PREFIXES_REGEX : Re.regex :=
  Re.seq [Re.Bos;
          alt (map Re.lit_i
                 ["A.S."; "AS"; "A.C."; "AC"; "SSC"; "S.S.C."; "SS"; "U.S.";
                  "US"; "U.C."; "UC"; "F.C."; "FC"]%string);
          Re.plus Re.space].

Definition TEAM_CLEAN_WORDS : list str := [py "calcio"].

Definition TEAM_SPECIAL : list (str * str) :=
  [(py "internazionale", py "inter");
   (py "inter", py "inter");
   (py "juventus", py "juventus");
   (py "as roma", py "roma");
   (py "a.s. roma", py "roma");
   (py "roma", py "roma");
   (py "ssc napoli", py "napoli");
   (py "s.s.c. napoli", py "napoli");
   (py "napoli", py "napoli");
   (py "ss lazio", py "lazio")].

(** [\bvs\b| - ], IGNORECASE *)
Definition MATCH_SPLIT_REGEX : Re.regex :=
  Re.Alt (Re.seq [Re.Wb; Re.lit_i "vs"; Re.Wb]) (Re.lit_i " - ").

Definition clean_day_string (day : str) : str :=
  let day := PyStr.replace (py " - Schedule Time UK GMT") (py "") day in
  let day :=
    fold_left
      (fun day suf =>
         Re.sub (Re.Cat (Re.Grp (Re.plus Re.digit)) (Re.lit suf))
                (fun g1 => g1) day)
      ["st"; "nd"; "rd"; "th"]%string day in
  PyStr.strip day.

(** [x or d] on an optional integer: [None] and [0] are false *)
Definition or_default (x : option Z) (d : Z) : Z :=
  match x with
  | Some z => if (z =? 0)%Z then d else z
  | None => d
  end.

(** The three date fields read from the day label, before the defaults. *)
Definition parse_day_fields (day_str : str)
  : option Z * option Z * option Z :=
  let day_clean := clean_day_string day_str in
  let parts := PyStr.split_ws day_clean in
  if 4 <=? length parts then
    if mem (nth 1 parts []) MONTHS then
      (get MONTHS (nth 1 parts []),
       PyStr.int (nth 2 parts []),
       PyStr.int (nth 3 parts []))
    else if mem (nth 2 parts []) MONTHS then
      (get MONTHS (nth 2 parts []),
       PyStr.int (nth 1 parts []),
       PyStr.int (nth 3 parts []))
    else (None, None, None)
  else (None, None, None).

(** [hour, minute = map(int, time_uk.split(':'))] inside its [try] *)
Definition parse_time (time_uk : time_field) : Z * Z :=
  match time_uk with
  | TimeStr s =>
      match map PyStr.int (PyStr.split (py ":") None s) with
      | [Some h; Some m] => (h, m)
      | _ => (0, 0)%Z
      end
  | TimeOther => (0, 0)%Z
  | TimeMissing => (0, 0)%Z
  end.

Section Environment.

(** [pytz] is [None] when the import failed. *)
Variable pytz : option tzdb.
Variable now : today.

Definition parse_event_datetime (day_str : str) (time_uk : time_field)
  : exc datetime :=
  let '(month, daynum, year) := parse_day_fields day_str in
  let month := or_default month (now_month now) in
  let daynum := or_default daynum (now_day now) in
  let year := or_default year (now_year now) in
  let '(hour, minute) := parse_time time_uk in
  naive <- make year month daynum hour minute ;;
  match pytz with
  | Some tz => london_to_utc tz naive
  | None => Ok naive
  end.

End Environment.

Definition strip_prefixes (team : str) : str :=
  let team := Re.sub TEAM_PREFIXES_REGEX (fun _ => []) (PyStr.strip team) in
  let words :=
    filter (fun w => negb (elem (PyStr.lower w) TEAM_CLEAN_WORDS))
           (Re.split (Re.plus Re.space) team) in
  PyStr.strip (PyStr.join (py " ") words).

Definition normalize_team (team : str) : str :=
  let base := strip_prefixes team in
  let key := PyStr.lower base in
  match get TEAM_SPECIAL key with
  | Some v => v
  | None => PyStr.lower base
  end.

Definition extract_teams (event_name : str) : option str * option str :=
  match Re.split MATCH_SPLIT_REGEX event_name with
  | p0 :: p1 :: _ => (Some (PyStr.strip p0), Some (PyStr.strip p1))
  | _ => (None, None)
  end.

(** [\bmotogp\b], IGNORECASE *)
Definition RX_MOTOGP : Re.regex := Re.seq [Re.Wb; Re.lit_i "motogp"; Re.Wb].

(** [\b(f1|formula 1)\b], IGNORECASE *)
Definition RX_F1 : Re.regex :=
  Re.seq [Re.Wb; Re.Grp (Re.Alt (Re.lit_i "f1") (Re.lit_i "formula 1"));
          Re.Wb].

(** [\b(ATP|WTA)\b], IGNORECASE *)
Definition RX_TENNIS : Re.regex :=
  Re.seq [Re.Wb; Re.Grp (Re.Alt (Re.lit_i "ATP") (Re.lit_i "WTA")); Re.Wb].

(** truth value of a string *)
Definition truthy (s : str) : bool :=
  match s with [] => false | _ => true end.

Definition is_motor (category_src : str) : bool :=
  elem category_src [py "motor sports"; py "motorsports"].

Definition build_logo (category_src : str) (raw_event : str) : option str :=
  match get COPPA_LOGOS category_src with
  | Some f => Some (LOGO_BASE ++ py "/" ++ f)
  | None =>
  if is_motor category_src then
    if Re.search RX_MOTOGP raw_event then Some (LOGO_BASE ++ py "/MotoGP.png")
    else if Re.search RX_F1 raw_event then Some (LOGO_BASE ++ py "/F1.png")
    else None
  else if PyStr.eqb category_src (py "Tennis") then
    Some (LOGO_BASE ++ py "/Tennis.png")
  else
    let serie_ab :=
      if elem category_src [py "Italy - Serie A"; py "Italy - Serie B"] then
        match extract_teams raw_event with
        | (Some t1, Some t2) =>
            if truthy t1 && truthy t2 then
              let n1 := normalize_team t1 in
              let n2 := normalize_team t2 in
              let filename :=
                PyStr.replace (py " ") (py "_")
                  (PyStr.title n1 ++ py "_vs_" ++ PyStr.title n2 ++ py ".png") in
              Some (LOGO_BASE ++ py "/" ++ filename)
            else None
        | _ => None
        end
      else None in
    match serie_ab with
    | Some l => Some l
    | None =>
        if PyStr.eqb category_src (py "Italy - Serie C") then
          if Re.search (Re.lit_i "salernitana") raw_event
          then Some (LOGO_BASE ++ py "/Salernitana.png")
          else None
        else None
    end
  end.

Definition map_category (category_src : str) (raw_event : str) : option str :=
  if PyStr.eqb category_src (py "Italy - Serie A") then Some (py "seriea")
  else if PyStr.eqb category_src (py "Italy - Serie B") then Some (py "serieb")
  else if PyStr.eqb category_src (py "Italy - Serie C") then Some (py "seriec")
  else if mem category_src COPPA_LOGOS then Some (py "coppe")
  else if PyStr.eqb category_src (py "Tennis") then Some (py "tennis")
  else if is_motor category_src then
    if Re.search RX_MOTOGP raw_event then Some (py "motogp")
    else if Re.search RX_F1 raw_event then Some (py "f1")
    else None
  else None.

Definition should_include_category (cat : str) : bool :=
  elem cat BASE_CATEGORIES.

Definition SOCCER_CONTAINER_NAMES : list str := [py "soccer"].

Definition INLINE_COMPETITION_PATTERNS : list (Re.regex * str) :=
  [(Re.seq [Re.Wb; Re.lit_i "Champions League"; Re.Wb],
    py "UEFA Champions League");
   (Re.seq [Re.Wb; Re.lit_i "Europa League"; Re.Wb], py "UEFA Europa League");
   (Re.seq [Re.Wb; Re.lit_i "Conference League"; Re.Wb],
    py "Conference League");
   (Re.seq [Re.Wb; Re.lit_i "Coppa Italia"; Re.Wb], py "Coppa Italia");
   (Re.seq [Re.lit_i "Italy"; Re.Star Re.space; Re.chr_i "-";
            Re.Star Re.space; Re.lit_i "Serie A"], py "Italy - Serie A");
   (Re.seq [Re.lit_i "Italy"; Re.Star Re.space; Re.chr_i "-";
            Re.Star Re.space; Re.lit_i "Serie B"], py "Italy - Serie B");
   (Re.seq [Re.lit_i "Italy"; Re.Star Re.space; Re.chr_i "-";
            Re.Star Re.space; Re.lit_i "Serie C"], py "Italy - Serie C")].

Fixpoint first_label (pats : list (Re.regex * str)) (event_name : str)
  : option str :=
  match pats with
  | [] => None
  | (rx, label) :: t =>
      if Re.search rx event_name then Some label else first_label t event_name
  end.

Definition detect_inline_competition (event_name : str) : option str :=
  first_label INLINE_COMPETITION_PATTERNS event_name.

Definition should_include_channel_text (text : str) : bool :=
  let tl := PyStr.lower text in
  negb (existsb (fun k => PyStr.contains k tl) EXCLUDE_KEYWORDS_CHANNEL).

(** [^\d{1,2}:\d{2}:] *)
Definition RX_TIME_PREFIX : Re.regex :=
  Re.seq [Re.Bos; Re.digit; Re.opt Re.digit; Re.chr ":";
          Re.digit; Re.digit; Re.chr ":"].

(** The pattern holds a colon, so the split has a second piece. *)
Definition extract_event_title (raw_event : str) : str :=
  if Re.matches_start RX_TIME_PREFIX raw_event
  then PyStr.strip (nth 1 (PyStr.split (py ":") (Some 1) raw_event) [])
  else PyStr.strip raw_event.

(** [[^a-z0-9]+] *)
Definition RX_NOT_SLUG : Re.regex :=
  Re.plus (Re.Cls (fun c => negb (Chr.islower c || Chr.isdigit c))).

Definition build_event_id (name : str) (start_dt : datetime) : str :=
  let slug :=
    firstn 60
      (PyStr.strip_chars (py "-")
         (Re.sub RX_NOT_SLUG (fun _ => py "-") (PyStr.lower name))) in
  slug ++ py "-" ++ strftime_Ymd start_dt.

(** how an f-string prints a channel identifier *)
Definition format_id (i : channel_id) : str :=
  match i with
  | IdStr s => s
  | IdInt z => PyStr.of_Z z
  end.

Definition id_truthy (i : channel_id) : bool :=
  match i with
  | IdStr s => truthy s
  | IdInt z => negb (z =? 0)%Z
  end.

Definition get_stream_url (channel_obj : channel) : option str :=
  match channel_obj with
  | ChDict (Some i) _ =>
      if id_truthy i
      then Some (py "https://thedaddy.click/stream/stream-" ++ format_id i
                 ++ py ".php")
      else None
  | _ => None
  end.

(** [<[^>]+>] *)
Definition RX_TAG : Re.regex :=
  Re.seq [Re.chr "<"; Re.plus (Re.Cls (fun c => negb (Ascii.eqb c ">")));
          Re.chr ">"].

Definition clean_category_key (raw : str) : str :=
  let c := PyStr.replace (py "</span>") (py "") raw in
  let c := Re.sub RX_TAG (fun _ => []) c in
  PyStr.strip c.

Section Main.

Variable pytz : option tzdb.
Variable now : today.

(** The label that the steps after the category test work with:
    [detected] for an event of the container, [category_src] for a
    whitelisted category, nothing ([continue]) otherwise. *)
Definition effective_category (category_src : str)
    (is_soccer_container category_whitelisted : bool) (raw_event : str)
  : option str :=
  if is_soccer_container then detect_inline_competition raw_event
  else if category_whitelisted then Some category_src
  else None.

(** [ch.get('channel_name') or f"CH-{ch.get('channel_id','')}"] *)
Definition channel_name (ch : channel) : str :=
  match ch with
  | ChDict i n =>
      match n with
      | Some (c :: s) => c :: s
      | _ => py "CH-" ++ match i with Some i => format_id i | None => [] end
      end
  | ChOther => []
  end.

(** The loop over [game.get('channels', [])]. *)
Fixpoint streams_of (title effective_category_src : str)
    (chs : list channel) : list stream :=
  match chs with
  | [] => []
  | ch :: rest =>
      match get_stream_url ch with
      | None => streams_of title effective_category_src rest
      | Some u =>
          let ch_name := channel_name ch in
          if should_include_channel_text
               (ch_name ++ py " " ++ title ++ py " " ++ effective_category_src)
          then {| url := u; stream_title := ch_name |}
               :: streams_of title effective_category_src rest
          else streams_of title effective_category_src rest
      end
  end.

Definition rome_string (start_dt_utc : datetime) : exc str :=
  match pytz with
  | Some tz =>
      rome_dt <- utc_to_rome tz start_dt_utc ;;
      Ok (strftime_dmHM rome_dt)
  | None => Ok (strftime_dmHM start_dt_utc ++ py " UTC")
  end.

Definition event_start (start_dt_utc : datetime) : str :=
  PyStr.replace (py "+00:00") (py "Z") (isoformat_utc start_dt_utc).

(** [(game.get('event') or '').strip()] *)
Definition raw_title (g : game) : str :=
  PyStr.strip (match event g with Some s => s | None => [] end).

(** the same on a value of any shape: [strip] is no attribute of a true
    value that is no string *)
Definition event_text (ev : event_field) : exc str :=
  match ev with
  | EventMissing => Ok (PyStr.strip [])
  | EventStr s => Ok (PyStr.strip s)
  | EventOther => Raise AttributeError
  end.

(** [game.get('time', '00:00')] *)
Definition time_or_default (t : time_field) : time_field :=
  match t with
  | TimeMissing => TimeStr (py "00:00")
  | t => t
  end.

Definition time_str (g : game) : time_field := time_or_default (time g).

(** the loop over the channels, which raises on a value that cannot be
    iterated *)
Definition for_channels (title effective_category_src : str)
    (chs : channels_field) : exc (list stream) :=
  match chs with
  | ChannelsList l => Ok (streams_of title effective_category_src l)
  | ChannelsOther => Raise TypeError
  end.

(** The body of the loop over the events of a category: the record to
    append, or nothing where the source says [continue], or the exception
    that leaves the loop.  [game.get] is no attribute of a value that is
    no object. *)
Definition process_game (day category_src : str)
    (is_soccer_container category_whitelisted : bool) (g : game_val)
  : exc (option entry) :=
  match g with
  | GameOther => Raise AttributeError
  | GameDict ev tm chs =>
  raw_event <- event_text ev ;;
  if negb (truthy raw_event) then Ok None else
  match effective_category category_src is_soccer_container
          category_whitelisted raw_event with
  | None => Ok None
  | Some effective_category_src =>
  if PyStr.eqb effective_category_src (py "Tennis")
     && negb (Re.search RX_TENNIS raw_event)
  then Ok None else
  match map_category effective_category_src raw_event with
  | None => Ok None
  | Some mapped_cat =>
      start_dt_utc <- parse_event_datetime pytz now day (time_or_default tm) ;;
      rome_str <- rome_string start_dt_utc ;;
      let title := extract_event_title raw_event in
      let logo := build_logo effective_category_src raw_event in
      streams_list <- for_channels title effective_category_src chs ;;
      match streams_list with
      | [] => Ok None
      | _ :: _ =>
          let event_id := build_event_id title start_dt_utc in
          Ok (Some {| id := event_id;
                      name := title;
                      streams := streams_list;
                      logo := match logo with
                              | Some (c :: l) => Some (c :: l)
                              | _ => None
                              end;
                      category := mapped_cat;
                      description :=
                        effective_category_src ++ py " " ++ rome_str;
                      eventStart := event_start start_dt_utc |})
      end
  end
  end
  end.

Fixpoint for_games (day category_src : str)
    (is_soccer_container category_whitelisted : bool)
    (events : list game_val) (dynamic_channels : list entry)
  : exc (list entry) :=
  match events with
  | [] => Ok dynamic_channels
  | g :: rest =>
      r <- process_game day category_src is_soccer_container
             category_whitelisted g ;;
      for_games day category_src is_soccer_container category_whitelisted
        rest
        (match r with
         | Some e => dynamic_channels ++ [e]
         | None => dynamic_channels
         end)
  end.

Fixpoint for_categories (day : str) (day_data : list (str * events_val))
    (dynamic_channels : list entry) : exc (list entry) :=
  match day_data with
  | [] => Ok dynamic_channels
  | (category_src_raw, events) :: rest =>
      let category_src := clean_category_key category_src_raw in
      match events with
      | EventsOther => for_categories day rest dynamic_channels
      | EventsList l =>
          let is_soccer_container :=
            elem (PyStr.lower category_src) SOCCER_CONTAINER_NAMES in
          let category_whitelisted := should_include_category category_src in
          acc <- for_games day category_src is_soccer_container
                   category_whitelisted l dynamic_channels ;;
          for_categories day rest acc
      end
  end.

Fixpoint for_days (sched : schedule) (dynamic_channels : list entry)
  : exc (list entry) :=
  match sched with
  | [] => Ok dynamic_channels
  | (day, DayOther) :: rest => for_days rest dynamic_channels
  | (day, DayDict day_data) :: rest =>
      acc <- for_categories day day_data dynamic_channels ;;
      for_days rest acc
  end.

(** [main], after the download: the list handed to [json.dump], or the
    exception that leaves the loops (they stand outside every [try]). *)
Definition main (sched : schedule) : exc (list entry) := for_days sched [].


End Main.

End Live.

Module Examples.
Import Live Datetime.

Definition now0 : today := {| now_year := 2026; now_month := 11; now_day := 4 |}.

Definition day0 : str := py "Monday 1st January 2024 - Schedule Time UK GMT".

Definition game0 : game :=
  {| event := Some (py "AS Roma vs FC Internazionale");
     time := TimeStr (py "20:00");
     channels := [ChDict (Some (IdInt 35)) (Some (py "Sky Sport"))] |}.

Definition sched0 : schedule :=
  [(day0, DayDict [(py "Italy - Serie A</span>", EventsList [Game game0])])].

Definition game_f1 : game :=
  {| event := Some (py "F1: Monza Grand Prix");
     time := TimeStr (py "14:00");
     channels := [ChDict (Some (IdStr (py "60"))) (Some (py "Sky F1"))] |}.

Definition game_atp : game :=
  {| event := Some (py "ATP Rome: Sinner vs Alcaraz");
     time := TimeStr (py "15:30");
     channels := [ChDict (Some (IdInt 576)) (Some (py "Sky Tennis"))] |}.

Definition game_hour_24 : game :=
  {| event := Some (py "ATP Rome: Sinner vs Alcaraz");
     time := TimeStr (py "24:00");
     channels := [ChDict (Some (IdStr (py "576"))) (Some (py "Sky Tennis"))] |}.

Definition sched_hour_24 : schedule :=
  [(day0, DayDict [(py "Tennis", EventsList [Game game_hour_24])])].

Definition sched_undated : schedule :=
  [(py "Today", DayDict [(py "Tennis", EventsList [Game game_atp])])].

Definition now1 : today :=
  {| now_year := 2026; now_month := 11; now_day := 5 |}.




Definition sched_feb_31 : schedule :=
  [(py "Saturday 31st February 2024 - Schedule Time UK GMT",
    DayDict [(py "Italy - Serie A", EventsList [Game game0])])].

Definition game_blank_title : game :=
  {| event := Some (py "   ");
     time := TimeStr (py "99:99");
     channels := [ChDict (Some (IdInt 35)) (Some (py "Sky Sport"))] |}.

Definition game_no_channel_bad_time : game :=
  {| event := Some (py "Juventus vs Napoli");
     time := TimeStr (py "25:61");
     channels := [] |}.

End Examples.

(** ** Notions of the specification *)

Module Spec.

Import Live Datetime.

(** *** What a pattern matches

    [matches r p s p' s']: the pattern [r] matches between the position
    of text [s] (previous character [p]) and the position of text [s']
    (previous character [p']).  The relation has no priorities: it tells
    which matches exist, the matcher picks one. *)
Inductive matches : Re.regex -> option ascii -> str -> option ascii -> str
                    -> Prop :=
| M_Eps : forall p s, matches Re.Eps p s p s
| M_Cls : forall f p c t, f c = true -> matches (Re.Cls f) p (c :: t) (Some c) t
| M_Cat : forall a b p s p1 s1 p2 s2,
    matches a p s p1 s1 -> matches b p1 s1 p2 s2 ->
    matches (Re.Cat a b) p s p2 s2
| M_AltL : forall a b p s p' s',
    matches a p s p' s' -> matches (Re.Alt a b) p s p' s'
| M_AltR : forall a b p s p' s',
    matches b p s p' s' -> matches (Re.Alt a b) p s p' s'
| M_Star0 : forall a p s, matches (Re.Star a) p s p s
| M_StarS : forall a p s p1 s1 p2 s2,
    matches a p s p1 s1 -> length s1 < length s ->
    matches (Re.Star a) p1 s1 p2 s2 ->
    matches (Re.Star a) p s p2 s2
| M_Wb : forall p s, Re.at_boundary p s = true -> matches Re.Wb p s p s
| M_Bos : forall s, matches Re.Bos None s None s
| M_Grp : forall a p s p' s',
    matches a p s p' s' -> matches (Re.Grp a) p s p' s'.

(** the last character of [pre], or [p] when [pre] is empty *)
Definition last_or (p : option ascii) (pre : str) : option ascii :=
  last (map Some pre) p.

(** [r] matches somewhere in [t] *)
Definition found (r : Re.regex) (t : str) : Prop :=
  exists pre rest p' s',
    t = pre ++ rest /\ matches r (last_or None pre) rest p' s'.

(** *** Standalone tokens

    [w] occurs in [t], in any letter case, with no word character
    (letter, digit, underscore) right before or right after it. *)
Definition free_before (pre : str) : bool :=
  match last_or None pre with
  | Some c => negb (Chr.isword c)
  | None => true
  end.

Definition free_after (post : str) : bool :=
  match post with
  | c :: _ => negb (Chr.isword c)
  | [] => true
  end.

Definition standalone (w : str) (t : str) : Prop :=
  exists pre mid post,
    t = pre ++ mid ++ post /\
    PyStr.lower mid = PyStr.lower w /\
    free_before pre = true /\ free_after post = true.

(** the first, the last character of a text is a word character *)
Definition head_word (s : str) : bool :=
  match s with c :: _ => Chr.isword c | [] => false end.

Definition last_word (s : str) : bool :=
  match last_or None s with Some c => Chr.isword c | None => false end.

(** [K] tells where the continuation [k] succeeds. *)
Definition tracks (R : Type) (k : Re.cont R)
    (K : option ascii -> str -> Prop) : Prop :=
  forall p s g, k p s g <> None <-> K p s.

(** [w] occurs in [t], in any letter case *)
Definition occurs_i (w : str) (t : str) : Prop :=
  exists pre mid post, t = pre ++ mid ++ post /\ PyStr.lower mid = PyStr.lower w.

(** *** Inline markers of the competitions *)

Definition blanks (ws : str) : Prop :=
  Forall (fun c => Chr.isspace c = true) ws.

(** [Italy - Serie x] in [t]: in any letter case, with any blanks (or
    none) on both sides of the hyphen; [serie] is ["Serie A"] and the
    like. *)
Definition serie_marker (serie : str) (t : str) : Prop :=
  exists pre i ws1 ws2 sa post,
    t = pre ++ i ++ ws1 ++ "-"%char :: ws2 ++ sa ++ post /\
    PyStr.lower i = py "italy" /\ blanks ws1 /\ blanks ws2 /\
    PyStr.lower sa = PyStr.lower serie.



(** *** Logos of the two leagues *)






(** *** Slugs

    Every run of characters that are no letter and no digit becomes one
    hyphen. *)
Fixpoint hyphenate (in_run : bool) (s : str) : str :=
  match s with
  | [] => []
  | c :: t =>
      if Chr.isalnum c then c :: hyphenate false t
      else if in_run then hyphenate true t
      else "-"%char :: hyphenate true t
  end.

(** the number of characters of the class that [s] starts with *)
Definition lead (f : ascii -> bool) (s : str) : nat :=
  length s - length (PyStr.dropwhile f s).

Definition trim_hyphens (s : str) : str :=
  PyStr.strip_by (fun c => Ascii.eqb c "-") s.

Definition slug (title : str) : str :=
  firstn 60 (trim_hyphens (hyphenate false (PyStr.lower title))).

(** *** Day labels *)

Definition tokens (day_str : str) : list str :=
  PyStr.split_ws (clean_day_string day_str).

Definition month_names : list str :=
  [py "January"; py "February"; py "March"; py "April"; py "May"; py "June";
   py "July"; py "August"; py "September"; py "October"; py "November";
   py "December"].

Definition weekday_names : list str :=
  [py "Monday"; py "Tuesday"; py "Wednesday"; py "Thursday"; py "Friday";
   py "Saturday"; py "Sunday"].

Definition ordinal_suffixes : list str :=
  [py "st"; py "nd"; py "rd"; py "th"; py ""].

(** the number of a month name, 1 for January *)
Fixpoint index_from (n : Z) (names : list str) (m : str) : option Z :=
  match names with
  | [] => None
  | x :: t => if PyStr.eqb m x then Some n else index_from (n + 1) t m
  end.

Definition month_number (m : str) : option Z := index_from 1 month_names m.

(** the names with their numbers, as [enumerate(names, start=n)] pairs
    them *)
Fixpoint number_from (n : Z) (names : list str) : list (str * Z) :=
  match names with
  | [] => []
  | x :: t => (x, n) :: number_from (n + 1) t
  end.

(** The two layouts, read on the first four tokens. *)
Definition layout (parts : list str) : option Z * option Z * option Z :=
  match parts with
  | _ :: a :: b :: y :: _ =>
      match month_number a, month_number b with
      | Some m, _ => (Some m, PyStr.int b, PyStr.int y)
      | None, Some m => (Some m, PyStr.int a, PyStr.int y)
      | None, None => (None, None, None)
      end
  | _ => (None, None, None)
  end.

Definition label_tail : str := py " - Schedule Time UK GMT".

(** [Weekday Day Month Year] and [Weekday Month Day Year], the day with
    an ordinal suffix *)
Definition label_dmy (w d suf m y : str) : str :=
  w ++ py " " ++ d ++ suf ++ py " " ++ m ++ py " " ++ y ++ label_tail.

Definition label_mdy (w m d suf y : str) : str :=
  w ++ py " " ++ m ++ py " " ++ d ++ suf ++ py " " ++ y ++ label_tail.

Definition day_numbers : list Z := map Z.of_nat (seq 1 31).

Definition sample_years : list Z := [2024; 2025]%Z.

Definition fields_are (f : option Z * option Z * option Z) (m d y : Z)
  : bool :=
  match f with
  | (Some m', Some d', Some y') => ((m' =? m) && (d' =? d) && (y' =? y))%Z
  | _ => false
  end.

Definition label_read (w m : str) (d : Z) (suf : str) (y : Z) : bool :=
  match month_number m with
  | Some mi =>
      fields_are
        (parse_day_fields (label_dmy w (PyStr.of_Z d) suf m (PyStr.of_Z y)))
        mi d y
      && fields_are
           (parse_day_fields (label_mdy w m (PyStr.of_Z d) suf (PyStr.of_Z y)))
           mi d y
  | None => false
  end.

(** a label is accepted when its month is recognised *)
Definition accepted (day_str : str) : bool :=
  match parse_day_fields day_str with
  | (Some _, _, _) => true
  | _ => false
  end.

(** a field read from the label and kept (neither absent nor zero) *)
Definition kept (x : option Z) : bool :=
  match x with
  | Some z => negb (z =? 0)%Z
  | None => false
  end.

(** the label gives the three date fields itself *)
Definition dated (day_str : str) : bool :=
  let '(m, d, y) := parse_day_fields day_str in kept m && kept d && kept y.

(** the labels of the days whose value is a dict *)
Fixpoint day_labels (sched : schedule) : list str :=
  match sched with
  | [] => []
  | (day, DayDict _) :: rest => day :: day_labels rest
  | (_, DayOther) :: rest => day_labels rest
  end.

(** the text that the exclusion keywords are looked up in *)
Definition channel_text (ch : channel) (title effective_category_src : str)
  : str :=
  channel_name ch ++ py " " ++ title ++ py " " ++ effective_category_src.

Definition has_keyword (text : str) : bool :=
  PyStr.contains (py "college") (PyStr.lower text)
  || PyStr.contains (py "youth") (PyStr.lower text).


Definition ends_with (suffix s : str) : Prop := exists pre, s = pre ++ suffix.

(** the characters of a date and time in ISO format, to the second *)
Definition stamp_char (c : ascii) : bool :=
  Chr.isdigit c || Ascii.eqb c "-" || Ascii.eqb c "T" || Ascii.eqb c ":".

(** *** Further notions *)

(** the labels that the inline patterns give *)
Definition inline_labels : list str := map snd INLINE_COMPETITION_PATTERNS.

(** the categories of the events found in the container *)
Definition container_categories : list str :=
  [py "coppe"; py "seriea"; py "serieb"; py "seriec"].

(** a text made of blanks only *)
Definition blank (s : str) : bool := forallb Chr.isspace s.

(** a text without blank at its ends *)
Definition trimmed (s : str) : Prop :=
  match s with
  | [] => True
  | c :: _ => Chr.isspace c = false
  end /\
  match last_or None s with
  | Some c => Chr.isspace c = false
  | None => True
  end.

(** the characters of an identifier *)
Definition id_char (c : ascii) : bool :=
  Chr.islower c || Chr.isdigit c || Ascii.eqb c "-".

Definition STREAM_BASE : str := py "https://thedaddy.click/stream/stream-".

(** a file name that ends in [.png] and holds no blank *)
Definition png_name (f : str) : bool :=
  PyStr.starts_with (rev (py ".png")) (rev f)
  && negb (existsb (Ascii.eqb " ") f).

(** the record that the loop body builds from the values it has computed *)
Definition record_of (g : game) (eff mapped : str) (start : datetime)
    (rome : str) : entry :=
  {| id := build_event_id (extract_event_title (raw_title g)) start;
     name := extract_event_title (raw_title g);
     streams := streams_of (extract_event_title (raw_title g)) eff
                  (channels g);
     logo := match build_logo eff (raw_title g) with
             | Some (c :: l) => Some (c :: l)
             | _ => None
             end;
     category := mapped;
     description := eff ++ py " " ++ rome;
     eventStart := event_start start |}.

(** An event with its day label and the label of its category, as the
    three loops of [main] reach it. *)
Definition job : Type := (str * str * game_val)%type.

Definition games_of_events (v : events_val) : list game_val :=
  match v with
  | EventsList l => l
  | EventsOther => []
  end.

Definition jobs_of_day (day : str) (v : day_val) : list job :=
  match v with
  | DayDict cats =>
      flat_map
        (fun c => map (fun g => (day, fst c, g)) (games_of_events (snd c)))
        cats
  | DayOther => []
  end.

(** the events of a schedule in the order of the loops: day, category,
    event *)
Definition jobs_of (sched : schedule) : list job :=
  flat_map (fun d => jobs_of_day (fst d) (snd d)) sched.

(** the loop body on an event, with the values that the category loop
    computes from the label *)
Definition run_job (pytz : option tzdb) (now : today) (j : job)
  : exc (option entry) :=
  let '(day, raw, g) := j in
  let c := clean_category_key raw in
  process_game pytz now day c
    (elem (PyStr.lower c) SOCCER_CONTAINER_NAMES)
    (should_include_category c) g.

(** the results of [f] on the jobs, in order, up to the first exception *)
Fixpoint collect (f : job -> exc (option entry)) (jobs : list job)
  : exc (list entry) :=
  match jobs with
  | [] => Ok []
  | j :: rest =>
      r <- f j ;;
      out <- collect f rest ;;
      Ok (match r with Some e => e :: out | None => out end)
  end.

Definition is_ok {A : Type} (r : exc A) : Prop := exists a, r = Ok a.

(** an event whose title the loop body can read: an object whose [event]
    is a string, absent or false *)
Definition has_text (x : game_val) : bool :=
  match x with
  | GameDict EventOther _ _ => false
  | GameDict _ _ _ => true
  | GameOther => false
  end.

End Spec.

(** * Properties *)

(** ** The primitives on examples *)

Module Sanity.

Import Live.

Example strip_blanks : PyStr.strip (py "  a b ") = py "a b".
Proof. reflexivity. Qed.

Example split_blanks :
  PyStr.split_ws (py " Monday  1 January 2024 ")
  = [py "Monday"; py "1"; py "January"; py "2024"].
Proof. reflexivity. Qed.

Example split_colon :
  PyStr.split (py ":") None (py "20:00:") = [py "20"; py "00"; py ""].
Proof. reflexivity. Qed.

Example split_colon_once :
  PyStr.split (py ":") (Some 1) (py "20:00: A vs B")
  = [py "20"; py "00: A vs B"].
Proof. reflexivity. Qed.

Example replace_all :
  PyStr.replace (py " - x") (py "") (py "ab - x - xc") = py "abc".
Proof. reflexivity. Qed.

Example title_words : PyStr.title (py "as roma x1y") = py "As Roma X1Y".
Proof. reflexivity. Qed.

Example int_signed : PyStr.int (py " -1_0 ") = Some (-10)%Z.
Proof. reflexivity. Qed.

Example int_refused :
  map PyStr.int [py "1__0"; py "_1"; py "1_"; py ""; py "1st"; py "0x10"]
  = [None; None; None; None; None; None].
Proof. reflexivity. Qed.

Example digits_printed :
  PyStr.of_Z 1024 = py "1024" /\ PyStr.of_Z 0 = py "0" /\
  PyStr.of_Z (-7) = py "-7" /\ PyStr.pad 2 7 = py "07" /\
  PyStr.pad 4 2024 = py "2024" /\
  Datetime.strftime_Ymd (Datetime.mk 2024 1 1 20 0 0) = py "20240101".
Proof. repeat split; reflexivity. Qed.

Example word_found :
  Re.search RX_MOTOGP (py "Race: MotoGP Italy") = true /\
  Re.search RX_MOTOGP (py "Race: MotoGP2 Italy") = false.
Proof. split; reflexivity. Qed.

Example ordinals_removed :
  clean_day_string (py "Monday 1st 21st August st - Schedule Time UK GMT")
  = py "Monday 1 21 August st".
Proof. reflexivity. Qed.

Example teams_split :
  Re.split MATCH_SPLIT_REGEX (py "AS Roma VS FC Inter - x")
  = [py "AS Roma "; py " FC Inter"; py "x"].
Proof. reflexivity. Qed.

Example tags_removed :
  clean_category_key (py " <span class=x>Soccer</span> ") = py "Soccer".
Proof. reflexivity. Qed.

Example dates_checked :
  Datetime.make 2024 2 29 23 59 = Ok (Datetime.mk 2024 2 29 23 59 0) /\
  Datetime.make 2023 2 29 0 0 = Raise ValueError /\
  Datetime.make 2024 1 1 24 0 = Raise ValueError /\
  Datetime.make 2024 1 1 0 4294967296 = Raise OverflowError.
Proof. repeat split; reflexivity. Qed.

End Sanity.

(** ** The matcher finds what the patterns match *)

Module ReFacts.

Import Spec.

Section Accept.

Variable R : Type.

Lemma first_some (x y : option R) :
  match x with Some v => Some v | None => y end <> None <->
  x <> None \/ y <> None.
Proof.
  destruct x; split; intros H.
  - left; discriminate.
  - discriminate.
  - now right.
  - destruct H as [H | H]; [now elim H | exact H].
Qed.

Lemma star_loop_accepts (a : Re.regex)
    (Ha : forall (k : Re.cont R) K, tracks k K -> forall p s g,
          Re.run a p s g k <> None <->
          exists p' s', matches a p s p' s' /\ K p' s')
    (k : Re.cont R) K (HK : tracks k K) :
  forall n p s g, length s < n ->
    Re.star_loop (Re.run a) k n p s g <> None <->
    exists p' s', matches (Re.Star a) p s p' s' /\ K p' s'.
Proof.
  induction n as [| n IH]; intros p s g Hn; [lia |].
  simpl. rewrite first_some.
  rewrite (Ha _ (fun p' s' => length s' < length s /\
                   exists p2 s2, matches (Re.Star a) p' s' p2 s2 /\ K p2 s2)).
  - rewrite (HK _ _ _). split.
    + intros [(p1 & s1 & Hm & Hlt & p2 & s2 & Hs & Hk) | Hk].
      * exists p2, s2. split; [eapply M_StarS; eauto | exact Hk].
      * exists p, s. split; [constructor | exact Hk].
    + intros (p' & s' & Hm & Hk). inversion Hm; subst.
      * now right.
      * left. exists p1, s1. split; [assumption |]. split; [assumption |].
        exists p', s'. now split.
  - intros p1 s1 g1. destruct (Nat.ltb_spec (length s1) (length s)) as [Hlt | Hge].
    + rewrite IH by lia. split; [intros H; now split | intros [_ H]; exact H].
    + split; [intros H; now elim H | intros [Hlt _]; lia].
Qed.

Lemma run_accepts (r : Re.regex) :
  forall (k : Re.cont R) K, tracks k K -> forall p s g,
    Re.run r p s g k <> None <->
    exists p' s', matches r p s p' s' /\ K p' s'.
Proof.
  induction r as [| f | a IHa b IHb | a IHa b IHb | a IHa | | | a IHa];
    intros k K HK p s g; cbn [Re.run].
  - rewrite (HK _ _ _). split.
    + intros H. exists p, s. split; [constructor | exact H].
    + intros (p' & s' & Hm & H). inversion Hm; subst. exact H.
  - destruct s as [| c t].
    + split; [intros H; now elim H | intros (p' & s' & Hm & _); inversion Hm].
    + destruct (f c) eqn:Hf.
      * rewrite (HK _ _ _). split.
        -- intros H. exists (Some c), t. split; [now constructor | exact H].
        -- intros (p' & s' & Hm & H). inversion Hm; subst. exact H.
      * split; [intros H; now elim H |].
        intros (p' & s' & Hm & _). inversion Hm; subst. congruence.
  - rewrite (IHa _ (fun p1 s1 => exists p2 s2, matches b p1 s1 p2 s2 /\ K p2 s2)).
    + split.
      * intros (p1 & s1 & Hm1 & p2 & s2 & Hm2 & H).
        exists p2, s2. split; [econstructor; eauto | exact H].
      * intros (p2 & s2 & Hm & H). inversion Hm; subst.
        exists p1, s1. split; [assumption |]. exists p2, s2. now split.
    + intros p1 s1 g1. now apply IHb.
  - rewrite first_some, (IHa _ _ HK), (IHb _ _ HK). split.
    + intros [(p' & s' & Hm & H) | (p' & s' & Hm & H)]; exists p', s';
        (split; [| exact H]); [now apply M_AltL | now apply M_AltR].
    + intros (p' & s' & Hm & H). inversion Hm; subst;
        [left | right]; exists p', s'; now split.
  - apply star_loop_accepts; [exact IHa | exact HK | lia].
  - destruct (Re.at_boundary p s) eqn:Hb.
    + rewrite (HK _ _ _). split.
      * intros H. exists p, s. split; [now constructor | exact H].
      * intros (p' & s' & Hm & H). inversion Hm; subst. exact H.
    + split; [intros H; now elim H |].
      intros (p' & s' & Hm & _). inversion Hm; subst. congruence.
  - destruct p as [c |].
    + split; [intros H; now elim H | intros (p' & s' & Hm & _); inversion Hm].
    + rewrite (HK _ _ _). split.
      * intros H. exists None, s. split; [constructor | exact H].
      * intros (p' & s' & Hm & H). inversion Hm; subst. exact H.
  - rewrite (IHa _ K).
    + split; intros (p' & s' & Hm & H); exists p', s'; (split; [| exact H]).
      * now constructor.
      * now inversion Hm; subst.
    + intros p1 s1 g1. apply HK.
Qed.

End Accept.

Lemma match_at_accepts (r : Re.regex) (p : option ascii) (s : str) :
  Re.match_at r p s <> None <-> exists p' s', matches r p s p' s'.
Proof.
  unfold Re.match_at.
  rewrite (@run_accepts _ r _ (fun _ _ => True)).
  - split; intros (p' & s' & H); [exists p', s'; apply H | exists p', s'; now split].
  - intros p0 s0 g0. split; [trivial | discriminate].
Qed.

Lemma last_cons (A : Type) (l : list A) :
  forall x d, last (x :: l) d = last l x.
Proof.
  induction l as [| a l IH]; intros x d; [reflexivity |].
  change (last (x :: a :: l) d) with (last (a :: l) d).
  now rewrite (IH a d), (IH a x).
Qed.

Lemma last_or_cons (p : option ascii) (c : ascii) (pre : str) :
  last_or p (c :: pre) = last_or (Some c) pre.
Proof. unfold last_or. simpl map. apply last_cons. Qed.

Lemma search_from_found (r : Re.regex) :
  forall s p, Re.search_from r p s = true <->
    exists pre rest p' s',
      s = pre ++ rest /\ matches r (last_or p pre) rest p' s'.
Proof.
  induction s as [| c t IH]; intros p; simpl.
  - destruct (Re.match_at r p []) eqn:Hm.
    + split; [intros _ | reflexivity].
      assert (H : Re.match_at r p [] <> None) by congruence.
      apply match_at_accepts in H. destruct H as (p' & s' & H).
      exists [], [], p', s'. now split.
    + split; [discriminate |].
      intros (pre & rest & p' & s' & Heq & H).
      destruct pre; [| discriminate]. simpl in Heq; subst rest.
      assert (Hn : Re.match_at r p [] <> None)
        by (apply match_at_accepts; eauto).
      congruence.
  - destruct (Re.match_at r p (c :: t)) eqn:Hm.
    + split; [intros _ | reflexivity].
      assert (H : Re.match_at r p (c :: t) <> None) by congruence.
      apply match_at_accepts in H. destruct H as (p' & s' & H).
      exists [], (c :: t), p', s'. now split.
    + rewrite IH. split.
      * intros (pre & rest & p' & s' & Heq & H).
        exists (c :: pre), rest, p', s'. split; [now rewrite Heq |].
        now rewrite last_or_cons.
      * intros (pre & rest & p' & s' & Heq & H).
        destruct pre as [| d pre].
        -- simpl in Heq; subst rest.
           assert (Hn : Re.match_at r p (c :: t) <> None)
             by (apply match_at_accepts; eauto).
           congruence.
        -- injection Heq as -> ->. exists pre, rest, p', s'.
           split; [reflexivity |]. now rewrite <- (last_or_cons p).
Qed.

(** [rx.search(t)] succeeds exactly when the pattern matches somewhere. *)
Lemma search_found (r : Re.regex) (t : str) :
  Re.search r t = true <-> found r t.
Proof. apply search_from_found. Qed.

(** *** Literals *)

Lemma matches_eps_inv p s p' s' :
  matches Re.Eps p s p' s' <-> p' = p /\ s' = s.
Proof.
  split.
  - intros H. inversion H; subst. now split.
  - intros [-> ->]. constructor.
Qed.

Lemma matches_cat_inv a b p s p' s' :
  matches (Re.Cat a b) p s p' s' <->
  exists p1 s1, matches a p s p1 s1 /\ matches b p1 s1 p' s'.
Proof.
  split.
  - intros H. inversion H; subst. eauto.
  - intros (p1 & s1 & Ha & Hb). econstructor; eauto.
Qed.

Lemma matches_alt_inv a b p s p' s' :
  matches (Re.Alt a b) p s p' s' <->
  matches a p s p' s' \/ matches b p s p' s'.
Proof.
  split.
  - intros H. inversion H; subst; auto.
  - intros [H | H]; [now apply M_AltL | now apply M_AltR].
Qed.

Lemma matches_grp_inv a p s p' s' :
  matches (Re.Grp a) p s p' s' <-> matches a p s p' s'.
Proof.
  split.
  - intros H. now inversion H; subst.
  - now constructor.
Qed.

Lemma matches_wb_inv p s p' s' :
  matches Re.Wb p s p' s' <-> Re.at_boundary p s = true /\ p' = p /\ s' = s.
Proof.
  split.
  - intros H. inversion H; subst. auto.
  - intros (H & -> & ->). now constructor.
Qed.

Lemma matches_cls_inv f p s p' s' :
  matches (Re.Cls f) p s p' s' <->
  exists c, s = c :: s' /\ f c = true /\ p' = Some c.
Proof.
  split.
  - intros H. inversion H; subst. eauto.
  - intros (c & -> & Hf & ->). now constructor.
Qed.

Lemma matches_seq_cons r l p s p' s' :
  matches (Re.seq (r :: l)) p s p' s' <->
  exists p1 s1, matches r p s p1 s1 /\ matches (Re.seq l) p1 s1 p' s'.
Proof.
  destruct l as [| r2 l].
  - simpl. split.
    + intros H. exists p', s'. split; [exact H | constructor].
    + intros (p1 & s1 & H & He). apply matches_eps_inv in He.
      destruct He as [-> ->]. exact H.
  - change (Re.seq (r :: r2 :: l)) with (Re.Cat r (Re.seq (r2 :: l))).
    apply matches_cat_inv.
Qed.

(** A literal under IGNORECASE matches the texts that are equal to it up
    to letter case. *)
Lemma matches_lit (w : str) :
  forall p s p' s',
    matches (Re.seq (map Re.chr_i w)) p s p' s' <->
    exists mid, s = mid ++ s' /\ PyStr.lower mid = PyStr.lower w /\
                p' = last_or p mid.
Proof.
  induction w as [| c w IH]; intros p s p' s'.
  - simpl. rewrite matches_eps_inv. split.
    + intros [-> ->]. exists []. repeat split.
    + intros (mid & Hs & Hl & Hp). destruct mid; [| discriminate].
      simpl in Hs. subst. now split.
  - simpl map. rewrite matches_seq_cons. split.
    + intros (p1 & s1 & Hc & Hw). apply matches_cls_inv in Hc.
      destruct Hc as (x & -> & Hx & ->). apply IH in Hw.
      destruct Hw as (mid & -> & Hl & ->).
      exists (x :: mid). split; [reflexivity |]. split.
      * simpl. f_equal; [| exact Hl].
        unfold Chr.eqb_i in Hx. apply Ascii.eqb_eq in Hx. now symmetry.
      * now rewrite last_or_cons.
    + intros (mid & -> & Hl & ->). destruct mid as [| x mid]; [discriminate |].
      simpl in Hl. injection Hl as Hx Hl.
      exists (Some x), (mid ++ s'). split.
      * apply matches_cls_inv. exists x. repeat split.
        unfold Chr.eqb_i. apply Ascii.eqb_eq. now symmetry.
      * apply IH. exists mid. repeat split; [exact Hl |].
        now rewrite last_or_cons.
Qed.

Lemma isword_lower (c : ascii) : Chr.isword (Chr.lower c) = Chr.isword c.
Proof. destruct c as [[] [] [] [] [] [] [] []]; reflexivity. Qed.

Lemma head_word_lower s : head_word (PyStr.lower s) = head_word s.
Proof. destruct s; [reflexivity | apply isword_lower]. Qed.

Lemma last_or_lower :
  forall s p, last_or (option_map Chr.lower p) (PyStr.lower s)
              = option_map Chr.lower (last_or p s).
Proof.
  induction s as [| c s IH]; intros p; [reflexivity |].
  change (PyStr.lower (c :: s)) with (Chr.lower c :: PyStr.lower s).
  rewrite !last_or_cons. apply (IH (Some c)).
Qed.

Lemma last_word_lower s : last_word (PyStr.lower s) = last_word s.
Proof.
  unfold last_word.
  change (last_or None (PyStr.lower s))
    with (last_or (option_map Chr.lower None) (PyStr.lower s)).
  rewrite (last_or_lower s None).
  destruct (last_or None s); [apply isword_lower | reflexivity].
Qed.

Lemma last_or_nonempty :
  forall mid p, mid <> [] -> last_or p mid = last_or None mid.
Proof.
  intros [| c mid] p H; [now elim H |]. now rewrite !last_or_cons.
Qed.

Lemma last_or_app :
  forall pre mid p, last_or p (pre ++ mid) = last_or (last_or p pre) mid.
Proof.
  induction pre as [| c pre IH]; intros mid p; [reflexivity |].
  change ((c :: pre) ++ mid) with (c :: pre ++ mid).
  now rewrite !last_or_cons.
Qed.

(** [\b] in front of a text that starts with a word character *)
Lemma boundary_before pre mid post :
  head_word mid = true ->
  Re.at_boundary (last_or None pre) (mid ++ post) = free_before pre.
Proof.
  intros H. destruct mid as [| x mid]; [discriminate |]. simpl in H.
  unfold Re.at_boundary, free_before. simpl. rewrite H.
  destruct (last_or None pre) as [c |]; [| reflexivity].
  now destruct (Chr.isword c).
Qed.

(** [\b] behind a text that ends with a word character *)
Lemma boundary_after p mid post :
  last_word mid = true ->
  Re.at_boundary (last_or p mid) post = free_after post.
Proof.
  intros H. assert (Hne : mid <> []) by (intros ->; discriminate).
  rewrite (last_or_nonempty p Hne). unfold last_word in H.
  unfold Re.at_boundary, free_after.
  destruct (last_or None mid) as [c |]; [| discriminate]. rewrite H.
  destruct post as [| d post]; [reflexivity |]. now destruct (Chr.isword d).
Qed.

(** [\b...\b] around a set of literals: the pattern is found exactly
    where one of the literals stands alone. *)
Lemma found_between_boundaries (body : Re.regex) (words : list str)
    (Hbody : forall p s p' s',
        matches body p s p' s' <->
        exists w mid, In w words /\ s = mid ++ s' /\
                      PyStr.lower mid = PyStr.lower w /\ p' = last_or p mid)
    (Hwords : forall w, In w words ->
                        head_word w = true /\ last_word w = true)
    (t : str) :
  found (Re.seq [Re.Wb; body; Re.Wb]) t <->
  exists w, In w words /\ standalone w t.
Proof.
  unfold found, standalone. split.
  - intros (pre & rest & p' & s' & -> & Hm).
    apply matches_seq_cons in Hm. destruct Hm as (p1 & s1 & Hb1 & Hm).
    apply matches_wb_inv in Hb1. destruct Hb1 as (Hb1 & -> & ->).
    apply matches_seq_cons in Hm. destruct Hm as (p2 & s2 & Hl & Hb2).
    simpl in Hb2. apply matches_wb_inv in Hb2. destruct Hb2 as (Hb2 & -> & ->).
    apply Hbody in Hl. destruct Hl as (w & mid & Hin & -> & Hl & ->).
    destruct (Hwords w Hin) as [Hh Ht].
    assert (Hh' : head_word mid = true)
      by (rewrite <- head_word_lower, Hl, head_word_lower; exact Hh).
    assert (Ht' : last_word mid = true)
      by (rewrite <- last_word_lower, Hl, last_word_lower; exact Ht).
    rewrite (boundary_before pre mid s2 Hh') in Hb1.
    rewrite (boundary_after _ mid s2 Ht') in Hb2.
    exists w. split; [exact Hin |]. exists pre, mid, s2. repeat split; assumption.
  - intros (w & Hin & pre & mid & post & -> & Hl & Hb1 & Hb2).
    destruct (Hwords w Hin) as [Hh Ht].
    assert (Hh' : head_word mid = true)
      by (rewrite <- head_word_lower, Hl, head_word_lower; exact Hh).
    assert (Ht' : last_word mid = true)
      by (rewrite <- last_word_lower, Hl, last_word_lower; exact Ht).
    exists pre, (mid ++ post), (last_or (last_or None pre) mid), post.
    split; [reflexivity |].
    apply matches_seq_cons. exists (last_or None pre), (mid ++ post). split.
    + apply matches_wb_inv. split; [| now split].
      now rewrite (boundary_before pre mid post Hh').
    + apply matches_seq_cons.
      exists (last_or (last_or None pre) mid), post. split.
      * apply Hbody. exists w, mid. repeat split; assumption.
      * simpl. apply matches_wb_inv. split; [| now split].
        now rewrite (boundary_after _ mid post Ht').
Qed.

(** [\bw\b], IGNORECASE *)
Lemma search_word (w : str) (t : str) :
  head_word w = true -> last_word w = true ->
  Re.search (Re.seq [Re.Wb; Re.seq (map Re.chr_i w); Re.Wb]) t = true <->
  standalone w t.
Proof.
  intros Hh Ht. rewrite search_found.
  rewrite (@found_between_boundaries _ [w]).
  - split.
    + intros (w' & [<- | []] & H). exact H.
    + intros H. exists w. split; [now left | exact H].
  - intros p s p' s'. rewrite matches_lit. split.
    + intros (mid & H). exists w, mid. split; [now left | exact H].
    + intros (w' & mid & [<- | []] & H). now exists mid.
  - intros w' [<- | []]. now split.
Qed.

(** [\b(w1|w2)\b], IGNORECASE *)
Lemma search_word2 (w1 w2 : str) (t : str) :
  head_word w1 = true -> last_word w1 = true ->
  head_word w2 = true -> last_word w2 = true ->
  Re.search (Re.seq [Re.Wb;
                     Re.Grp (Re.Alt (Re.seq (map Re.chr_i w1))
                                    (Re.seq (map Re.chr_i w2)));
                     Re.Wb]) t = true <->
  standalone w1 t \/ standalone w2 t.
Proof.
  intros Hh1 Ht1 Hh2 Ht2. rewrite search_found.
  rewrite (@found_between_boundaries _ [w1; w2]).
  - split.
    + intros (w' & [<- | [<- | []]] & H); [now left | now right].
    + intros [H | H]; [exists w1 | exists w2]; (split; [simpl; auto | exact H]).
  - intros p s p' s'. rewrite matches_grp_inv, matches_alt_inv, !matches_lit.
    split.
    + intros [(mid & H) | (mid & H)]; [exists w1, mid | exists w2, mid];
        (split; [simpl; auto | exact H]).
    + intros (w' & mid & [<- | [<- | []]] & H); [left | right]; now exists mid.
  - intros w' [<- | [<- | []]]; now split.
Qed.

(** *** Runs of a class and the markers with blanks *)

Lemma matches_star_cls (f : ascii -> bool) p s p' s' :
  matches (Re.Star (Re.Cls f)) p s p' s' <->
  exists ws, s = ws ++ s' /\ Forall (fun c => f c = true) ws /\
             p' = last_or p ws.
Proof.
  split.
  - intros H. remember (Re.Star (Re.Cls f)) as r eqn:Hr.
    induction H; try discriminate Hr.
    + exists []. repeat split. constructor.
    + injection Hr as ->. specialize (IHmatches2 eq_refl).
      destruct IHmatches2 as (ws & -> & Hws & ->).
      apply matches_cls_inv in H. destruct H as (c & -> & Hc & ->).
      exists (c :: ws). split; [reflexivity |]. split; [now constructor |].
      now rewrite last_or_cons.
  - intros (ws & -> & Hws & ->). revert p.
    induction Hws as [| c ws Hc Hws IH]; intros p; [constructor |].
    eapply M_StarS.
    + apply matches_cls_inv. exists c. repeat split. exact Hc.
    + change (length (ws ++ s') < length (c :: ws ++ s')). simpl. lia.
    + rewrite last_or_cons. apply IH.
Qed.

Lemma eqb_i_hyphen (c : ascii) : Chr.eqb_i "-" c = true <-> c = "-"%char.
Proof.
  destruct c as [[] [] [] [] [] [] [] []]; split; intros H;
    first [reflexivity | discriminate H].
Qed.

(** [Italy\s*-\s*Serie x], IGNORECASE *)
Lemma search_serie (serie : str) (t : str) :
  Re.search
    (Re.seq [Re.lit_i "Italy"; Re.Star Re.space; Re.chr_i "-";
             Re.Star Re.space; Re.seq (map Re.chr_i serie)]) t = true <->
  serie_marker serie t.
Proof.
  rewrite search_found. unfold found, serie_marker, Re.lit_i. split.
  - intros (pre & rest & p' & s' & -> & Hm).
    apply matches_seq_cons in Hm. destruct Hm as (p1 & s1 & Hi & Hm).
    apply matches_lit in Hi. destruct Hi as (i & -> & Hi & ->).
    apply matches_seq_cons in Hm. destruct Hm as (p2 & s2 & Hw1 & Hm).
    apply matches_star_cls in Hw1. destruct Hw1 as (ws1 & -> & Hw1 & ->).
    apply matches_seq_cons in Hm. destruct Hm as (p3 & s3 & Hh & Hm).
    apply matches_cls_inv in Hh. destruct Hh as (c & -> & Hc & ->).
    apply eqb_i_hyphen in Hc. subst c.
    apply matches_seq_cons in Hm. destruct Hm as (p4 & s4 & Hw2 & Hm).
    apply matches_star_cls in Hw2. destruct Hw2 as (ws2 & -> & Hw2 & ->).
    simpl Re.seq in Hm. apply matches_lit in Hm.
    destruct Hm as (sa & -> & Hsa & ->).
    exists pre, i, ws1, ws2, sa, s'. repeat split; assumption.
  - intros (pre & i & ws1 & ws2 & sa & post & -> & Hi & Hw1 & Hw2 & Hsa).
    exists pre, (i ++ ws1 ++ "-"%char :: ws2 ++ sa ++ post).
    eexists. exists post. split; [reflexivity |].
    apply matches_seq_cons. eexists. exists (ws1 ++ "-"%char :: ws2 ++ sa ++ post).
    split; [apply matches_lit; exists i; repeat split; exact Hi |].
    apply matches_seq_cons. eexists. exists ("-"%char :: ws2 ++ sa ++ post).
    split; [apply matches_star_cls; exists ws1; repeat split; exact Hw1 |].
    apply matches_seq_cons. eexists. exists (ws2 ++ sa ++ post).
    split; [apply matches_cls_inv; exists "-"%char; repeat split |].
    apply matches_seq_cons. eexists. exists (sa ++ post).
    split; [apply matches_star_cls; exists ws2; repeat split; exact Hw2 |].
    simpl Re.seq. apply matches_lit. exists sa. repeat split. exact Hsa.
Qed.

End ReFacts.

(** ** Strings *)

Module StrFacts.

Import Spec.

Lemma starts_with_app (p : str) :
  forall s, PyStr.starts_with p s = true <-> exists post, s = p ++ post.
Proof.
  induction p as [| a p IH]; intros s.
  - simpl. split; [intros _; now exists s | reflexivity].
  - destruct s as [| b s]; simpl.
    + split; [discriminate | intros (post & H); discriminate].
    + rewrite andb_true_iff, IH, Ascii.eqb_eq. split.
      * intros (-> & post & ->). now exists post.
      * intros (post & H). injection H as -> ->. split; [reflexivity | now exists post].
Qed.

Lemma contains_app (sub : str) :
  forall s, PyStr.contains sub s = true <->
            exists pre post, s = pre ++ sub ++ post.
Proof.
  induction s as [| c s IH].
  - simpl. rewrite orb_false_r, starts_with_app. split.
    + intros (post & H). now exists [], post.
    + intros (pre & post & H). destruct pre; [| discriminate].
      now exists post.
  - cbn [PyStr.contains]. rewrite orb_true_iff, starts_with_app, IH. split.
    + intros [(post & H) | (pre & post & H)].
      * now exists [], post.
      * exists (c :: pre), post. now rewrite H.
    + intros (pre & post & H). destruct pre as [| d pre].
      * left. now exists post.
      * right. injection H as -> ->. now exists pre, post.
Qed.

Lemma lower_app (a b : str) :
  PyStr.lower (a ++ b) = PyStr.lower a ++ PyStr.lower b.
Proof. apply map_app. Qed.

Lemma lower_idem_char (c : ascii) : Chr.lower (Chr.lower c) = Chr.lower c.
Proof. destruct c as [[] [] [] [] [] [] [] []]; reflexivity. Qed.

Lemma lower_idem (s : str) : PyStr.lower (PyStr.lower s) = PyStr.lower s.
Proof.
  unfold PyStr.lower. rewrite map_map. apply map_ext. apply lower_idem_char.
Qed.

(** [k in text.lower()], for a keyword in lower case, is the occurrence
    of [k] in [text] in any letter case. *)
Lemma contains_lower (k text : str) :
  PyStr.lower k = k ->
  PyStr.contains k (PyStr.lower text) = true <-> occurs_i k text.
Proof.
  intros Hk. rewrite contains_app. unfold occurs_i. split.
  - intros (pre & post & H). unfold PyStr.lower in H.
    apply map_eq_app in H. destruct H as (pre' & rest & -> & Hpre & Hrest).
    apply map_eq_app in Hrest. destruct Hrest as (mid & post' & -> & Hmid & Hpost).
    exists pre', mid, post'. split; [reflexivity |].
    unfold PyStr.lower at 1. rewrite Hmid. now symmetry.
  - intros (pre & mid & post & -> & Hmid).
    exists (PyStr.lower pre), (PyStr.lower post).
    now rewrite !lower_app, Hmid, Hk.
Qed.

Lemma occurs_i_app_l (k a b : str) : occurs_i k a -> occurs_i k (a ++ b).
Proof.
  intros (pre & mid & post & -> & H). exists pre, mid, (post ++ b).
  split; [now rewrite <- !app_assoc | exact H].
Qed.


Lemma dropwhile_ext (f h : ascii -> bool) :
  (forall c, f c = h c) -> forall s, PyStr.dropwhile f s = PyStr.dropwhile h s.
Proof.
  intros E. induction s as [| c s IH]; [reflexivity |].
  simpl. rewrite <- E. now rewrite IH.
Qed.

Lemma strip_by_ext (f h : ascii -> bool) (s : str) :
  (forall c, f c = h c) -> PyStr.strip_by f s = PyStr.strip_by h s.
Proof.
  intros E. unfold PyStr.strip_by, PyStr.rstrip_by, PyStr.lstrip_by.
  now rewrite (dropwhile_ext f h E s), (dropwhile_ext f h E).
Qed.

Lemma dropwhile_length (f : ascii -> bool) (s : str) :
  length (PyStr.dropwhile f s) <= length s.
Proof.
  induction s as [| c s IH]; [reflexivity |].
  simpl. destruct (f c); simpl; lia.
Qed.

(** *** [replace] *)

Lemma replace_skip_all (old new : str) :
  forall t, PyStr.replace_aux old new (length t) t = [].
Proof. induction t as [| c t IH]; [reflexivity | exact IH]. Qed.

Lemma starts_with_refl (p : str) : forall post, PyStr.starts_with p (p ++ post) = true.
Proof. intros post. apply starts_with_app. now exists post. Qed.

(** The only occurrence of [old] is at the end when its first character
    is not met before. *)
Lemma replace_at_end (c : ascii) (old new : str) :
  forall pre, ~ In c pre ->
    PyStr.replace (c :: old) new (pre ++ c :: old) = pre ++ new.
Proof.
  unfold PyStr.replace. induction pre as [| x pre IH]; intros Hn.
  - cbn [app PyStr.replace_aux].
    assert (E : PyStr.starts_with (c :: old) (c :: old) = true).
    { rewrite <- (app_nil_r (c :: old)) at 2. apply starts_with_refl. }
    rewrite E. cbn [length].
    replace (S (length old) - 1) with (length old) by lia.
    now rewrite replace_skip_all, app_nil_r.
  - cbn [app PyStr.replace_aux PyStr.starts_with].
    assert (E : Ascii.eqb c x = false).
    { apply Ascii.eqb_neq. intros ->. apply Hn. now left. }
    rewrite E. cbn [andb]. f_equal. apply IH. intros H. apply Hn. now right.
Qed.

(** *** Decimal digits *)

Lemma digit_char (k : N) : (k < 10)%N -> Chr.isdigit (ascii_of_N (48 + k)) = true.
Proof.
  intros H.
  assert (E : (k = 0 \/ k = 1 \/ k = 2 \/ k = 3 \/ k = 4 \/ k = 5 \/ k = 6
               \/ k = 7 \/ k = 8 \/ k = 9)%N) by lia.
  repeat (destruct E as [-> | E]; [reflexivity |]). now subst.
Qed.

Lemma digits_fuel_digits :
  forall fuel n acc,
    Forall (fun c => Chr.isdigit c = true) acc ->
    Forall (fun c => Chr.isdigit c = true) (PyStr.digits_fuel fuel n acc).
Proof.
  induction fuel as [| fuel IH]; intros n acc Hacc; [exact Hacc |].
  simpl.
  assert (Hd : Chr.isdigit (ascii_of_N (48 + n mod 10)) = true).
  { apply digit_char. apply N.mod_lt. discriminate. }
  destruct (n <? 10)%N.
  - now constructor.
  - apply IH. now constructor.
Qed.

Lemma pad_digits (w : nat) (n : N) :
  Forall (fun c => Chr.isdigit c = true) (PyStr.pad w n).
Proof.
  unfold PyStr.pad. apply Forall_app. split.
  - apply Forall_forall. intros c Hc. apply repeat_spec in Hc. now subst.
  - apply digits_fuel_digits. constructor.
Qed.


Lemma pad2_all :
  forallb (fun n => length (PyStr.pad 2 (N.of_nat n)) =? 2) (seq 0 100)
  = true.
Proof. vm_compute. reflexivity. Qed.

Lemma forallb_In (A : Type) (f : A -> bool) (l : list A) (x : A) :
  forallb f l = true -> In x l -> f x = true.
Proof. intros H. now apply forallb_forall. Qed.


Lemma pad2_length (z : Z) :
  (0 <= z < 100)%Z -> length (PyStr.pad 2 (Z.to_N z)) = 2.
Proof.
  intros Hz.
  assert (Ha : In (Z.to_nat z) (seq 0 100)) by (apply in_seq; lia).
  pose proof pad2_all as H.
  eapply forallb_In in H; [| exact Ha]. cbv beta in H.
  rewrite Z_nat_N in H. apply Nat.eqb_eq. exact H.
Qed.

End StrFacts.

(** ** Substitution of the runs of a class *)

Module SlugFacts.

Import Spec Live StrFacts.

(** The greedy repetition of a class takes the whole run. *)
Lemma star_cls_greedy (f : ascii -> bool) (L : nat) :
  forall n s p g, length s < n ->
    Re.star_loop (Re.run (Re.Cls f))
      (fun _ s' g' => Some (L - length s', g')) n p s g
    = Some (L - length (PyStr.dropwhile f s), g).
Proof.
  induction n as [| n IH]; intros s p g Hn; [lia |].
  destruct s as [| c t]; [reflexivity |].
  cbn [Re.star_loop Re.run PyStr.dropwhile].
  destruct (f c); [| reflexivity].
  assert (E : (length t <? length (c :: t)) = true)
    by (apply Nat.ltb_lt; simpl; lia).
  rewrite E. rewrite IH by (simpl in Hn; lia). reflexivity.
Qed.

Lemma match_at_plus_cls (f : ascii -> bool) (p : option ascii) (s : str) :
  Re.match_at (Re.plus (Re.Cls f)) p s =
  match s with
  | c :: t =>
      if f c then Some (length s - length (PyStr.dropwhile f t), []) else None
  | [] => None
  end.
Proof.
  unfold Re.match_at, Re.plus. cbn [Re.run].
  destruct s as [| c t]; [reflexivity |].
  destruct (f c); [| reflexivity].
  apply star_cls_greedy. lia.
Qed.

Lemma lead_cons (f : ascii -> bool) (c : ascii) (t : str) :
  lead f (c :: t) = if f c then S (lead f t) else 0.
Proof.
  unfold lead. cbn [PyStr.dropwhile].
  pose proof (dropwhile_length f t).
  destruct (f c); cbn [length]; lia.
Qed.

Lemma sub_runs (s : str) :
  Forall (fun c => Chr.isupper c = false) s ->
  (forall p, Re.sub_aux RX_NOT_SLUG (fun _ => py "-") 0 p s
             = hyphenate false s) /\
  (forall p,
     Re.sub_aux RX_NOT_SLUG (fun _ => py "-")
       (lead (fun c => negb (Chr.islower c || Chr.isdigit c)) s) p s
     = hyphenate true s).
Proof.
  set (f := fun c => negb (Chr.islower c || Chr.isdigit c)).
  induction s as [| c t IH]; intros Hs.
  - split; intros p; reflexivity.
  - inversion Hs as [| ? ? Hc Ht]; subst.
    destruct (IH Ht) as [IHa IHb].
    assert (Hal : Chr.isalnum c = negb (f c)).
    { unfold f, Chr.isalnum, Chr.isalpha. rewrite Hc, negb_involutive.
      reflexivity. }
    assert (A : forall p, Re.sub_aux RX_NOT_SLUG (fun _ => py "-") 0 p (c :: t)
                          = hyphenate false (c :: t)).
    { intros p. cbn [Re.sub_aux]. unfold RX_NOT_SLUG.
      rewrite match_at_plus_cls. fold f.
      change (negb (Chr.islower c || Chr.isdigit c)) with (f c).
      cbn [hyphenate]. rewrite Hal.
      pose proof (dropwhile_length f t) as Hle.
      replace (length (c :: t) - length (PyStr.dropwhile f t))
        with (S (lead f t)) by (unfold lead; cbn [length]; lia).
      destruct (f c) eqn:Hf; cbn [negb].
      - cbn [py list_ascii_of_string app]. f_equal. apply IHb.
      - f_equal. apply IHa. }
    split; [exact A |].
    intros p. rewrite lead_cons. cbn [hyphenate]. rewrite Hal.
    destruct (f c) eqn:Hf; cbn [negb].
    + cbn [Re.sub_aux]. apply IHb.
    + rewrite A. cbn [hyphenate]. rewrite Hal. reflexivity.
Qed.

Lemma isupper_lower (c : ascii) : Chr.isupper (Chr.lower c) = false.
Proof. destruct c as [[] [] [] [] [] [] [] []]; reflexivity. Qed.

(** [re.sub(r'[^a-z0-9]+', '-', name.lower()).strip('-')[:60]] is the slug
    of the title. *)
Lemma build_event_id_slug (name : str) (start_dt : Datetime.datetime) :
  build_event_id name start_dt
  = slug name ++ py "-" ++ Datetime.strftime_Ymd start_dt.
Proof.
  unfold build_event_id, slug, Re.sub. f_equal. f_equal.
  assert (H : Forall (fun c => Chr.isupper c = false) (PyStr.lower name)).
  { unfold PyStr.lower. apply Forall_forall. intros c Hc.
    apply in_map_iff in Hc. destruct Hc as (x & <- & _). apply isupper_lower. }
  rewrite (proj1 (sub_runs H) None).
  unfold PyStr.strip_chars, trim_hyphens. apply strip_by_ext.
  intros c. simpl. apply orb_false_r.
Qed.

End SlugFacts.

(** ** The body of the event loop *)

Module GameFacts.

Import Live Datetime Spec.

Lemma eqb_eq (a b : str) : PyStr.eqb a b = true <-> a = b.
Proof.
  revert b. induction a as [| x a IH]; intros [| y b]; simpl;
    try (split; [discriminate | discriminate]); [tauto |].
  rewrite andb_true_iff, Ascii.eqb_eq, IH. split.
  - now intros [-> ->].
  - intros [= -> ->]. now split.
Qed.

Lemma eqb_refl (a : str) : PyStr.eqb a a = true.
Proof. now apply eqb_eq. Qed.

Lemma elem_In (x : str) (l : list str) : elem x l = true <-> In x l.
Proof.
  unfold elem. rewrite existsb_exists. split.
  - intros (y & Hin & He). apply eqb_eq in He. now subst.
  - intros H. exists x. split; [exact H | apply eqb_refl].
Qed.

Lemma bind_ok (A B : Type) (m : exc A) (f : A -> exc B) (b : B) :
  bind m f = Ok b -> exists a, m = Ok a /\ f a = Ok b.
Proof. destruct m as [a | e]; [intros H; now exists a | discriminate]. Qed.

(** The loop body at an event of the shape of the feed. *)
Lemma process_game_Game pytz now day category_src soccer whitelisted
    (g : game) :
  process_game pytz now day category_src soccer whitelisted g =
  let raw_event := raw_title g in
  if negb (truthy raw_event) then Ok None else
  match effective_category category_src soccer whitelisted raw_event with
  | None => Ok None
  | Some effective_category_src =>
  if PyStr.eqb effective_category_src (py "Tennis")
     && negb (Re.search RX_TENNIS raw_event)
  then Ok None else
  match map_category effective_category_src raw_event with
  | None => Ok None
  | Some mapped_cat =>
      start_dt_utc <- parse_event_datetime pytz now day (time_str g) ;;
      rome_str <- rome_string pytz start_dt_utc ;;
      let title := extract_event_title raw_event in
      let logo := build_logo effective_category_src raw_event in
      let streams_list :=
        streams_of title effective_category_src (channels g) in
      match streams_list with
      | [] => Ok None
      | _ :: _ =>
          let event_id := build_event_id title start_dt_utc in
          Ok (Some {| id := event_id;
                      name := title;
                      streams := streams_list;
                      logo := match logo with
                              | Some (c :: l) => Some (c :: l)
                              | _ => None
                              end;
                      category := mapped_cat;
                      description :=
                        effective_category_src ++ py " " ++ rome_str;
                      eventStart := event_start start_dt_utc |})
      end
  end
  end.
Proof.
  assert (E : event_text
                (match event g with
                 | Some s => EventStr s
                 | None => EventMissing
                 end) = Ok (raw_title g))
    by (unfold raw_title; destruct (event g); reflexivity).
  unfold process_game, Game, time_str. rewrite E. cbn [bind].
  cbv zeta. destruct (negb (truthy (raw_title g))); [reflexivity |].
  destruct (effective_category category_src soccer whitelisted (raw_title g))
    as [eff |]; [| reflexivity].
  destruct (PyStr.eqb eff (py "Tennis")
            && negb (Re.search RX_TENNIS (raw_title g))); [reflexivity |].
  destruct (map_category eff (raw_title g)) as [mapped |]; [| reflexivity].
  destruct (parse_event_datetime pytz now day (time_or_default (time g)))
    as [start | x]; [| reflexivity].
  cbn [bind]. destruct (rome_string pytz start) as [rome | x];
    [| reflexivity].
  cbn [bind for_channels]. reflexivity.
Qed.

(** What stands behind a record that [process_game] returns: every test
    before the [append] has passed. *)
Lemma process_game_some pytz now day category_src soccer whitelisted
    (g : game) e :
  process_game pytz now day category_src soccer whitelisted g = Ok (Some e) ->
  exists eff mapped start rome,
    raw_title g <> [] /\
    effective_category category_src soccer whitelisted (raw_title g)
      = Some eff /\
    (eff = py "Tennis" -> Re.search RX_TENNIS (raw_title g) = true) /\
    map_category eff (raw_title g) = Some mapped /\
    parse_event_datetime pytz now day (time_str g) = Ok start /\
    rome_string pytz start = Ok rome /\
    streams_of (extract_event_title (raw_title g)) eff (channels g) <> [] /\
    e = {| id := build_event_id (extract_event_title (raw_title g)) start;
           name := extract_event_title (raw_title g);
           streams := streams_of (extract_event_title (raw_title g)) eff
                        (channels g);
           logo := match build_logo eff (raw_title g) with
                   | Some (c :: l) => Some (c :: l)
                   | _ => None
                   end;
           category := mapped;
           description := eff ++ py " " ++ rome;
           eventStart := event_start start |}.
Proof.
  rewrite process_game_Game.
  destruct (raw_title g) as [| c0 raw] eqn:Hraw; [discriminate |].
  cbn [truthy negb].
  destruct (effective_category category_src soccer whitelisted (c0 :: raw))
    as [eff |] eqn:Heff; [| discriminate].
  destruct (PyStr.eqb eff (py "Tennis")) eqn:Hten;
    destruct (Re.search RX_TENNIS (c0 :: raw)) eqn:Hs; cbn [andb negb];
    try discriminate.
  all: destruct (map_category eff (c0 :: raw)) as [mapped |] eqn:Hmap;
    [| discriminate].
  all: intros H; apply bind_ok in H; destruct H as (start & Hstart & H).
  all: apply bind_ok in H; destruct H as (rome & Hrome & H).
  all: destruct (streams_of (extract_event_title (c0 :: raw)) eff (channels g))
    as [| st sts] eqn:Hst; [discriminate |].
  all: injection H as <-.
  all: exists eff, mapped, start, rome.
  all: split; [discriminate |].
  all: split; [first [reflexivity | assumption] |].
  all: split;
    [first [ intros _; reflexivity
           | intros Heq; rewrite Heq, eqb_refl in Hten; discriminate ] |].
  all: split; [first [reflexivity | assumption] |].
  all: split; [first [reflexivity | assumption] |].
  all: split; [first [reflexivity | assumption] |].
  all: try rewrite Hst; split; [discriminate | reflexivity].
Qed.

(** A record is not returned when a test before the [append] fails. *)
Lemma process_game_none_category pytz now day category_src soccer whitelisted
    (g : game) :
  (forall eff,
     effective_category category_src soccer whitelisted (raw_title g)
       = Some eff ->
     (eff = py "Tennis" /\ Re.search RX_TENNIS (raw_title g) = false) \/
     map_category eff (raw_title g) = None) ->
  process_game pytz now day category_src soccer whitelisted g = Ok None.
Proof.
  intros H. rewrite process_game_Game.
  destruct (raw_title g) as [| c0 raw] eqn:Hraw; [reflexivity |].
  cbn [truthy negb].
  destruct (effective_category category_src soccer whitelisted (c0 :: raw))
    as [eff |] eqn:Heff; [| reflexivity].
  destruct (H eff eq_refl) as [[-> Hs] | Hmap].
  - rewrite Hs. reflexivity.
  - rewrite Hmap.
    now destruct (PyStr.eqb eff (py "Tennis") && negb (Re.search RX_TENNIS (c0 :: raw))).
Qed.

Lemma is_motor_cases (c : str) :
  is_motor c = true <-> c = py "motor sports" \/ c = py "motorsports".
Proof.
  unfold is_motor. rewrite elem_In. simpl. intuition congruence.
Qed.

Lemma map_category_motor (c t : str) :
  is_motor c = true ->
  map_category c t =
    if Re.search RX_MOTOGP t then Some (py "motogp")
    else if Re.search RX_F1 t then Some (py "f1")
    else None.
Proof.
  intros H. apply is_motor_cases in H.
  destruct H as [-> | ->]; cbv -[Re.search RX_MOTOGP RX_F1]; reflexivity.
Qed.

Lemma search_motogp (t : str) :
  Re.search RX_MOTOGP t = true <-> standalone (py "motogp") t.
Proof. now apply ReFacts.search_word. Qed.

Lemma search_f1 (t : str) :
  Re.search RX_F1 t = true <->
  standalone (py "f1") t \/ standalone (py "formula 1") t.
Proof. now apply ReFacts.search_word2. Qed.

Lemma search_tennis (t : str) :
  Re.search RX_TENNIS t = true <->
  standalone (py "ATP") t \/ standalone (py "WTA") t.
Proof. now apply ReFacts.search_word2. Qed.

Lemma make_fields (y m d hh mm : Z) (dt : datetime) :
  make y m d hh mm = Ok dt ->
  year dt = y /\ month dt = m /\ day dt = d /\ hour dt = hh /\
  minute dt = mm /\ second dt = 0%Z.
Proof.
  unfold make.
  destruct (negb (forallb fits_c_int [y; m; d; hh; mm])); [discriminate |].
  match goal with |- (if ?b then _ else _) = _ -> _ => destruct b end;
    [| discriminate].
  intros [= <-]. now repeat split.
Qed.

End GameFacts.

(** ** Claims about the category of an event *)

Module Claims.

Import Live Datetime Spec GameFacts Examples.

(** C2, counterexample: with ["MotoGP vs F1"] the title holds a standalone
    F1 token and the category is not [f1]; [motogp] is tested first. *)
Lemma motor_f1_iff_fails :
  ~ (forall c t, is_motor c = true ->
       (map_category c t = Some (py "f1") <->
        standalone (py "f1") t \/ standalone (py "formula 1") t)).
Proof.
  intros H.
  destruct (H (py "motor sports") (py "MotoGP vs F1") eq_refl) as [_ H2].
  assert (Hf : Re.search RX_F1 (py "MotoGP vs F1") = true) by reflexivity.
  apply search_f1 in Hf. apply H2 in Hf.
  assert (Hm : map_category (py "motor sports") (py "MotoGP vs F1")
               = Some (py "motogp")) by reflexivity.
  rewrite Hm in Hf. discriminate Hf.
Qed.

(** C2, amended: for an event whose effective category label is
    ['motor sports'] or ['motorsports'], the category is [motogp] exactly
    when the raw title holds a standalone MotoGP token, it is [f1] exactly
    when the title holds a standalone F1 or Formula 1 token and no
    standalone MotoGP token, and an event whose title holds neither token
    gives no record. *)
Theorem motor_category_by_token
    pytz now day category_src soccer whitelisted (g : game) c :
  effective_category category_src soccer whitelisted (raw_title g) = Some c ->
  is_motor c = true ->
  let t := raw_title g in
  let motogp := standalone (py "motogp") t in
  let f1 := standalone (py "f1") t \/ standalone (py "formula 1") t in
  (map_category c t = Some (py "motogp") <-> motogp) /\
  (map_category c t = Some (py "f1") <-> f1 /\ ~ motogp) /\
  (~ motogp -> ~ f1 ->
   process_game pytz now day category_src soccer whitelisted g = Ok None) /\
  (forall e,
     process_game pytz now day category_src soccer whitelisted g
       = Ok (Some e) ->
     (category e = py "motogp" <-> motogp) /\
     (category e = py "f1" <-> f1 /\ ~ motogp)).
Proof.
  intros Heff Hc t motogp f1. subst t. set (t := raw_title g) in *.
  assert (Hmap := map_category_motor c t Hc).
  assert (Hm : Re.search RX_MOTOGP t = true <-> motogp) by apply search_motogp.
  assert (Hf : Re.search RX_F1 t = true <-> f1) by apply search_f1.
  assert (A : map_category c t = Some (py "motogp") <-> motogp).
  { rewrite Hmap. destruct (Re.search RX_MOTOGP t).
    - split; [intros _; now apply Hm | reflexivity].
    - split.
      + destruct (Re.search RX_F1 t); discriminate.
      + intros H. apply Hm in H. discriminate. }
  assert (B : map_category c t = Some (py "f1") <-> f1 /\ ~ motogp).
  { rewrite Hmap. destruct (Re.search RX_MOTOGP t).
    - split; [discriminate |]. intros [_ Hn]. elim Hn. now apply Hm.
    - destruct (Re.search RX_F1 t).
      + split; [| reflexivity]. intros _. split; [now apply Hf |].
        intros H. apply Hm in H. discriminate.
      + split; [discriminate |]. intros [H _]. apply Hf in H. discriminate. }
  split; [exact A |]. split; [exact B |]. split.
  - intros Hnm Hnf. apply process_game_none_category.
    intros eff Heff'. fold t in Heff'. rewrite Heff in Heff'.
    injection Heff' as <-. right. fold t. rewrite Hmap.
    destruct (Re.search RX_MOTOGP t); [elim Hnm; now apply Hm |].
    destruct (Re.search RX_F1 t); [elim Hnf; now apply Hf | reflexivity].
  - intros e He. apply process_game_some in He.
    destruct He as (eff & mapped & start & rome & _ & Heff' & _ & Hmapped & _
                    & _ & _ & ->).
    fold t in Heff', Hmapped. rewrite Heff in Heff'. injection Heff' as <-.
    cbn [category]. split.
    + rewrite <- A, Hmapped. split; [now intros -> | now intros [= ->]].
    + rewrite <- B, Hmapped. split; [now intros -> | now intros [= ->]].
Qed.

Lemma motor_category_by_token_witness :
  map_category (py "motor sports") (raw_title game_f1) = Some (py "f1") <->
  (standalone (py "f1") (raw_title game_f1) \/
   standalone (py "formula 1") (raw_title game_f1)) /\
  ~ standalone (py "motogp") (raw_title game_f1).
Proof.
  apply (@motor_category_by_token None now0 day0 (py "motor sports")
           false true game_f1 (py "motor sports")); reflexivity.
Defined.

(** C10: an event whose effective category label is ['Tennis'] gives a
    record only if its title holds ATP or WTA as a standalone word, in any
    letter case; without such a token the event is left out, although
    the category is whitelisted. *)
Theorem tennis_gate pytz now day category_src soccer whitelisted
    (g : game) :
  effective_category category_src soccer whitelisted (raw_title g)
    = Some (py "Tennis") ->
  let t := raw_title g in
  let tagged := standalone (py "ATP") t \/ standalone (py "WTA") t in
  (forall e,
     process_game pytz now day category_src soccer whitelisted g
       = Ok (Some e) -> tagged) /\
  (~ tagged ->
   process_game pytz now day category_src soccer whitelisted g = Ok None).
Proof.
  intros Heff t tagged. split.
  - intros e He. apply process_game_some in He.
    destruct He as (eff & mapped & start & rome & _ & Heff' & Hten & _).
    rewrite Heff in Heff'. injection Heff' as <-.
    apply search_tennis. now apply Hten.
  - intros Hn. apply process_game_none_category.
    intros eff Heff'. rewrite Heff in Heff'. injection Heff' as <-.
    left. split; [reflexivity |].
    destruct (Re.search RX_TENNIS (raw_title g)) eqn:Hs; [| reflexivity].
    elim Hn. now apply search_tennis.
Qed.

Lemma tennis_gate_witness :
  exists e,
    process_game None now0 day0 (py "Tennis") false true game_atp
      = Ok (Some e) /\
    (standalone (py "ATP") (raw_title game_atp) \/
     standalone (py "WTA") (raw_title game_atp)).
Proof.
  destruct (process_game None now0 day0 (py "Tennis") false true game_atp)
    as [[e |] | x] eqn:He; try (vm_compute in He; discriminate He).
  exists e. split; [reflexivity |].
  exact (proj1 (@tennis_gate None now0 day0 (py "Tennis") false true game_atp
                  eq_refl) e He).
Defined.

(** ** Claims about the run as a whole *)

(** C9: the title ["20:00: Juventus vs Inter"] starts with the time
    prefix, and the extracted title is ["00: Juventus vs Inter"]: the
    split on the first colon takes the hour away and leaves the minutes
    of the prefix in the title. *)
Theorem extract_event_title_keeps_minutes :
  Re.matches_start RX_TIME_PREFIX (py "20:00: Juventus vs Inter") = true /\
  extract_event_title (py "20:00: Juventus vs Inter")
    = py "00: Juventus vs Inter" /\
  extract_event_title (py "Juventus vs Inter") = py "Juventus vs Inter".
Proof. repeat split; reflexivity. Qed.

(** C1: with the time ["24:00"] in an event that passes the filters, the
    run ends with a ValueError, whatever the time-zone data and the day of
    the run: [datetime.datetime(2024, 1, 1, 24, 0)] stands outside every
    [try]; the same with the day label of a 31 February. *)
Theorem main_raises_on_hour_24 :
  forall pytz now,
    main pytz now sched_hour_24 = Raise ValueError /\
    main pytz now sched_feb_31 = Raise ValueError.
Proof. intros pytz now. split; reflexivity. Qed.

Lemma digit_not_colon (c : ascii) :
  Chr.isdigit c = true -> Ascii.eqb ":" c = false.
Proof.
  destruct c as [[] [] [] [] [] [] [] []]; intros H;
    first [reflexivity | discriminate H].
Qed.

(** What the split on the first colon does to every title with a time
    prefix of two digits: the minutes stay. *)
Lemma extract_event_title_prefix (h1 h2 m1 m2 : ascii) (rest : str) :
  Chr.isdigit h1 = true -> Chr.isdigit h2 = true ->
  Chr.isdigit m1 = true -> Chr.isdigit m2 = true ->
  extract_event_title (h1 :: h2 :: ":"%char :: m1 :: m2 :: ":"%char :: rest)
  = PyStr.strip (m1 :: m2 :: ":"%char :: rest).
Proof.
  intros H1 H2 H3 H4. unfold extract_event_title.
  assert (E : Re.matches_start RX_TIME_PREFIX
                (h1 :: h2 :: ":"%char :: m1 :: m2 :: ":"%char :: rest)
              = true).
  { unfold Re.matches_start, Re.match_at, RX_TIME_PREFIX, Re.opt, Re.digit,
      Re.chr.
    cbn [Re.seq Re.run]. rewrite H1, H2. cbn [Ascii.eqb Bool.eqb].
    rewrite H3, H4. reflexivity. }
  rewrite E. unfold PyStr.split.
  cbn [PyStr.split_aux PyStr.starts_with py list_ascii_of_string andb
         option_map pred length Nat.sub nth rev app].
  rewrite (digit_not_colon h1 H1). cbn [andb PyStr.split_aux PyStr.starts_with].
  rewrite (digit_not_colon h2 H2). cbn [andb PyStr.split_aux PyStr.starts_with].
  cbn [Ascii.eqb Bool.eqb andb option_map pred length Nat.sub rev app].
  assert (R : forall cur s, PyStr.split_aux [":"%char] (Some 0) 0 cur s
                            = [rev cur ++ s]).
  { intros cur s. revert cur. induction s as [| c s IH]; intros cur.
    - simpl. now rewrite app_nil_r.
    - cbn [PyStr.split_aux andb]. rewrite IH. simpl.
      now rewrite <- app_assoc. }
  rewrite R. reflexivity.
Qed.

Lemma or_default_kept (x : option Z) (d1 d2 : Z) :
  kept x = true -> or_default x d1 = or_default x d2.
Proof.
  destruct x as [z |]; [| discriminate]. simpl.
  now destruct (z =? 0)%Z.
Qed.

Lemma parse_event_datetime_dated pytz now1 now2 day time_uk :
  dated day = true ->
  parse_event_datetime pytz now1 day time_uk
  = parse_event_datetime pytz now2 day time_uk.
Proof.
  unfold dated, parse_event_datetime.
  destruct (parse_day_fields day) as [[m d] y]. intros H.
  apply andb_prop in H. destruct H as [H Hy].
  apply andb_prop in H. destruct H as [Hm Hd].
  rewrite (or_default_kept m (now_month now1) (now_month now2) Hm).
  rewrite (or_default_kept d (now_day now1) (now_day now2) Hd).
  rewrite (or_default_kept y (now_year now1) (now_year now2) Hy).
  reflexivity.
Qed.

Lemma process_game_dated pytz now1 now2 day category_src soccer wl g :
  dated day = true ->
  process_game pytz now1 day category_src soccer wl g
  = process_game pytz now2 day category_src soccer wl g.
Proof.
  intros H. destruct g as [ev tm chs |]; [| reflexivity].
  unfold process_game.
  now rewrite (parse_event_datetime_dated pytz now1 now2 day _ H).
Qed.

Lemma for_games_dated pytz now1 now2 day category_src soccer wl :
  dated day = true ->
  forall events acc,
    for_games pytz now1 day category_src soccer wl events acc
    = for_games pytz now2 day category_src soccer wl events acc.
Proof.
  intros H. induction events as [| g rest IH]; intros acc; [reflexivity |].
  simpl. rewrite (process_game_dated pytz now1 now2 day _ _ _ g H).
  destruct (process_game pytz now2 day category_src soccer wl g)
    as [r | x]; [apply IH | reflexivity].
Qed.

Lemma for_categories_dated pytz now1 now2 day :
  dated day = true ->
  forall day_data acc,
    for_categories pytz now1 day day_data acc
    = for_categories pytz now2 day day_data acc.
Proof.
  intros H. induction day_data as [| [label events] rest IH]; intros acc;
    [reflexivity |].
  simpl. destruct events as [l |]; [| apply IH].
  rewrite (for_games_dated pytz now1 now2 day _ _ _ H).
  match goal with
  | |- bind ?m _ = _ => destruct m as [acc' | x]; [apply IH | reflexivity]
  end.
Qed.

(** C3, counterexample: a schedule whose day label is ["Today"] gives one
    event dated 4 November 2026 on that day and 5 November 2026 on the
    next. *)
Lemma main_depends_on_today :
  ~ (forall pytz now now' sched, main pytz now sched = main pytz now' sched).
Proof.
  intros H. specialize (H None now0 now1 sched_undated).
  vm_compute in H. discriminate H.
Qed.

(** C3, amended: two runs with the same time-zone data on the same
    document give the same list of records, whatever the days of the two
    runs, provided every day label of the document gives a month, a
    non-zero day and a non-zero year itself; a field that the label
    leaves out is taken from the current UTC date. *)
Theorem main_same_output_when_dated pytz now now' sched :
  Forall (fun day => dated day = true) (day_labels sched) ->
  main pytz now sched = main pytz now' sched.
Proof.
  unfold main. generalize (@nil entry).
  induction sched as [| [day v] rest IH]; intros acc H; [reflexivity |].
  simpl. destruct v as [day_data |].
  - simpl in H. inversion H as [| ? ? Hd Hrest]; subst.
    rewrite (for_categories_dated pytz now now' day Hd).
    destruct (for_categories pytz now' day day_data acc) as [acc' | x];
      [now apply IH | reflexivity].
  - now apply IH.
Qed.

Lemma main_same_output_when_dated_witness :
  Forall (fun day => dated day = true) (day_labels sched0) /\
  main None now0 sched0 = main None now1 sched0.
Proof.
  assert (H : Forall (fun day => dated day = true) (day_labels sched0)).
  { repeat constructor. }
  split; [exact H |].
  exact (@main_same_output_when_dated None now0 now1 sched0 H).
Defined.

(** ** Claims about the records *)

Lemma has_keyword_occurs (text : str) :
  has_keyword text = true <->
  occurs_i (py "college") text \/ occurs_i (py "youth") text.
Proof.
  unfold has_keyword. rewrite orb_true_iff.
  now rewrite !StrFacts.contains_lower by reflexivity.
Qed.

Lemma should_include_has_keyword (text : str) :
  should_include_channel_text text = negb (has_keyword text).
Proof.
  unfold should_include_channel_text, has_keyword. simpl.
  now rewrite orb_false_r.
Qed.

Lemma streams_of_cons title eff ch rest :
  streams_of title eff (ch :: rest) =
  match get_stream_url ch with
  | Some u =>
      if has_keyword (channel_text ch title eff)
      then streams_of title eff rest
      else {| url := u; stream_title := channel_name ch |}
           :: streams_of title eff rest
  | None => streams_of title eff rest
  end.
Proof.
  cbn [streams_of]. destruct (get_stream_url ch) as [u |]; [| reflexivity].
  rewrite should_include_has_keyword. fold (channel_text ch title eff).
  now destruct (has_keyword (channel_text ch title eff)).
Qed.

Lemma streams_of_In title eff :
  forall chs st,
    In st (streams_of title eff chs) <->
    exists ch u,
      In ch chs /\ get_stream_url ch = Some u /\
      st = {| url := u; stream_title := channel_name ch |} /\
      has_keyword (channel_text ch title eff) = false.
Proof.
  induction chs as [| ch rest IH]; intros st.
  - simpl. split; [intros [] | intros (ch & u & [] & _)].
  - rewrite streams_of_cons. split.
    + destruct (get_stream_url ch) as [u |] eqn:Hu.
      * destruct (has_keyword (channel_text ch title eff)) eqn:Hk.
        -- intros H. apply IH in H. destruct H as (ch' & u' & Hin & H).
           exists ch', u'. split; [now right | exact H].
        -- intros [<- | H].
           ++ exists ch, u. repeat split; [now left | assumption | assumption].
           ++ apply IH in H. destruct H as (ch' & u' & Hin & H).
              exists ch', u'. split; [now right | exact H].
      * intros H. apply IH in H. destruct H as (ch' & u' & Hin & H).
        exists ch', u'. split; [now right | exact H].
    + intros (ch' & u' & [<- | Hin] & Hu & -> & Hk).
      * rewrite Hu, Hk. now left.
      * assert (H : In {| url := u'; stream_title := channel_name ch' |}
                       (streams_of title eff rest)).
        { apply IH. exists ch', u'. repeat split; assumption. }
        destruct (get_stream_url ch) as [u |]; [| exact H].
        destruct (has_keyword (channel_text ch title eff)); [exact H |].
        now right.
Qed.




Lemma stamp_chars (dt : datetime) :
  Forall (fun c => stamp_char c = true) (isoformat_seconds dt).
Proof.
  assert (D : forall w z, Forall (fun c => stamp_char c = true) (pad w z)).
  { intros w z. unfold pad.
    eapply Forall_impl; [| apply StrFacts.pad_digits].
    intros c Hc. unfold stamp_char. now rewrite Hc. }
  unfold isoformat_seconds.
  repeat first [apply D | apply Forall_app; split].
  all: repeat constructor.
Qed.

Lemma event_start_Z (dt : datetime) :
  event_start dt = isoformat_seconds dt ++ py "Z".
Proof.
  unfold event_start, isoformat_utc.
  apply (StrFacts.replace_at_end "+"%char (py "00:00") (py "Z")).
  intros H. pose proof (stamp_chars dt) as F.
  rewrite Forall_forall in F. apply F in H. discriminate H.
Qed.




(** ** Claims about the container category *)






(** ** Claims about the logo *)







(** ** Claims about the day label *)

Lemma get_number_from (m : str) :
  forall names n, get (number_from n names) m = index_from n names m.
Proof.
  induction names as [| x names IH]; intros n; [reflexivity |].
  cbn [number_from get index_from].
  destruct (PyStr.eqb m x); [reflexivity | apply IH].
Qed.

Lemma get_MONTHS (m : str) : get MONTHS m = month_number m.
Proof.
  change MONTHS with (number_from 1 month_names). apply get_number_from.
Qed.

Lemma index_from_In (m : str) :
  forall names n, index_from n names m <> None <-> In m names.
Proof.
  induction names as [| x names IH]; intros n.
  - simpl. split; [intros H; now elim H | intros []].
  - cbn [index_from In]. destruct (PyStr.eqb m x) eqn:E.
    + apply eqb_eq in E. subst. split; [now left | discriminate].
    + rewrite IH. split; [now right |].
      intros [-> | H]; [| exact H]. rewrite eqb_refl in E. discriminate E.
Qed.

Lemma parse_day_fields_layout (day_str : str) :
  parse_day_fields day_str = layout (tokens day_str).
Proof.
  unfold parse_day_fields, tokens, layout, mem.
  destruct (PyStr.split_ws (clean_day_string day_str))
    as [| w [| a [| b [| y rest]]]];
    [reflexivity | reflexivity | reflexivity | reflexivity |].
  cbn [length nth Nat.leb]. rewrite (get_MONTHS a), (get_MONTHS b).
  destruct (month_number a); [reflexivity |].
  destruct (month_number b); reflexivity.
Qed.

Lemma month_number_names (m : str) :
  month_number m <> None <-> In m month_names.
Proof. apply index_from_In. Qed.

Lemma fields_are_eq f mi d y :
  fields_are f mi d y = true -> f = (Some mi, Some d, Some y).
Proof.
  destruct f as [[[m' |] [d' |]] [y' |]]; intros Hf; try discriminate Hf.
  simpl in Hf. apply andb_prop in Hf. destruct Hf as [Hf Hy'].
  apply andb_prop in Hf. destruct Hf as [Hm' Hd'].
  apply Z.eqb_eq in Hm', Hd', Hy'. now subst.
Qed.

Lemma weekdays_read :
  forallb (fun w =>
    forallb (fun m => label_read w m 1 (py "st") 2024) month_names)
    weekday_names = true.
Proof. vm_compute. reflexivity. Qed.

Lemma ordinals_read :
  forallb (fun m =>
    forallb (fun d =>
      forallb (fun suf =>
        forallb (fun y => label_read (py "Monday") m d suf y) sample_years)
        ordinal_suffixes)
      day_numbers)
    month_names = true.
Proof. vm_compute. reflexivity. Qed.

Lemma label_read_fields w m d suf y mi :
  label_read w m d suf y = true ->
  month_number m = Some mi ->
  parse_day_fields (label_dmy w (PyStr.of_Z d) suf m (PyStr.of_Z y))
    = (Some mi, Some d, Some y) /\
  parse_day_fields (label_mdy w m (PyStr.of_Z d) suf (PyStr.of_Z y))
    = (Some mi, Some d, Some y).
Proof.
  unfold label_read. intros H Hmi. rewrite Hmi in H.
  apply andb_prop in H. destruct H as [H1 H2].
  split; apply fields_are_eq; [exact H1 | exact H2].
Qed.

(** C4, counterexample: the label ["Monday January 1 2024 extra"] has five
    tokens and is accepted. *)
Lemma five_tokens_accepted :
  ~ (forall day_str, accepted day_str = true -> length (tokens day_str) = 4).
Proof.
  intros H. specialize (H (py "Monday January 1 2024 extra") eq_refl).
  vm_compute in H. discriminate H.
Qed.

(** C4, amended: the label loses [' - Schedule Time UK GMT'] and the
    ordinal suffixes after digits and is cut into tokens; a label of at
    least four tokens is read on its first four tokens, as [Weekday Month
    Day Year] or as [Weekday Day Month Year], the month by its full
    English name with its capital; a month, a day or a year that is
    missing, unparseable or zero is the one of the current UTC date;
    ['Monday 1st January 2024 - Schedule Time UK GMT'] with ['20:00']
    gives month 1, day 1, year 2024, hour 20, minute 0. *)
Theorem day_label_parsing :
  (forall day_str, parse_day_fields day_str = layout (tokens day_str)) /\
  (forall day_str,
     length (tokens day_str) < 4 ->
     parse_day_fields day_str = (None, None, None)) /\
  (forall m, month_number m <> None <-> In m month_names) /\
  month_number (py "january") = None /\
  (forall w m mi,
     In w weekday_names -> In m month_names -> month_number m = Some mi ->
     parse_day_fields (label_dmy w (py "1") (py "st") m (py "2024"))
       = (Some mi, Some 1, Some 2024)%Z /\
     parse_day_fields (label_mdy w m (py "1") (py "st") (py "2024"))
       = (Some mi, Some 1, Some 2024)%Z) /\
  (forall m d suf y mi,
     In m month_names -> In d day_numbers ->
     In suf ordinal_suffixes -> In y sample_years ->
     month_number m = Some mi ->
     parse_day_fields
       (label_dmy (py "Monday") (PyStr.of_Z d) suf m (PyStr.of_Z y))
       = (Some mi, Some d, Some y) /\
     parse_day_fields
       (label_mdy (py "Monday") m (PyStr.of_Z d) suf (PyStr.of_Z y))
       = (Some mi, Some d, Some y)) /\
  (forall pytz now day_str time_uk dt,
     parse_event_datetime pytz now day_str time_uk = Ok dt ->
     exists naive,
       match pytz with
       | Some tz => london_to_utc tz naive = Ok dt
       | None => naive = dt
       end /\
       (hour naive, minute naive) = parse_time time_uk /\
       match layout (tokens day_str) with
       | (m, d, y) =>
           month naive = or_default m (now_month now) /\
           day naive = or_default d (now_day now) /\
           year naive = or_default y (now_year now)
       end) /\
  (forall dflt, or_default None dflt = dflt /\ or_default (Some 0%Z) dflt = dflt)
  /\
  (forall z dflt, z <> 0%Z -> or_default (Some z) dflt = z) /\
  (clean_day_string day0 = py "Monday 1 January 2024" /\
   parse_day_fields day0 = (Some 1, Some 1, Some 2024)%Z /\
   parse_time (TimeStr (py "20:00")) = (20, 0)%Z /\
   forall now,
     parse_event_datetime None now day0 (TimeStr (py "20:00"))
     = Ok (mk 2024 1 1 20 0 0)).
Proof.
  split; [exact parse_day_fields_layout |].
  split.
  { intros day_str H. rewrite parse_day_fields_layout.
    destruct (tokens day_str) as [| w [| a [| b [| y rest]]]];
      [reflexivity | reflexivity | reflexivity | reflexivity |].
    simpl in H. lia. }
  split; [exact month_number_names |].
  split; [reflexivity |].
  split.
  { intros w m mi Hw Hm Hmi.
    pose proof weekdays_read as H.
    eapply StrFacts.forallb_In in H; [| exact Hw]. cbv beta in H.
    eapply StrFacts.forallb_In in H; [| exact Hm]. cbv beta in H.
    exact (label_read_fields _ _ _ _ _ H Hmi). }
  split.
  { intros m d suf y mi Hm Hd Hsuf Hy Hmi.
    pose proof ordinals_read as H.
    eapply StrFacts.forallb_In in H; [| exact Hm]. cbv beta in H.
    eapply StrFacts.forallb_In in H; [| exact Hd]. cbv beta in H.
    eapply StrFacts.forallb_In in H; [| exact Hsuf]. cbv beta in H.
    eapply StrFacts.forallb_In in H; [| exact Hy]. cbv beta in H.
    exact (label_read_fields _ _ _ _ _ H Hmi). }
  split.
  { intros pytz now day_str time_uk dt. unfold parse_event_datetime.
    rewrite parse_day_fields_layout.
    destruct (layout (tokens day_str)) as [[m d] y].
    destruct (parse_time time_uk) as [hh mm].
    intros H. apply bind_ok in H. destruct H as (naive & Hmake & H).
    exists naive. apply make_fields in Hmake.
    destruct Hmake as (Hy & Hm & Hd & Hh & Hmi & _).
    split.
    - destruct pytz; [exact H | now injection H].
    - split; [now rewrite Hh, Hmi | now repeat split]. }
  split; [intros dflt; now split |].
  split.
  { intros z dflt Hz. simpl. destruct (Z.eqb_spec z 0); [contradiction |].
    reflexivity. }
  repeat split; vm_compute; reflexivity.
Qed.

Lemma day_label_parsing_witness :
  parse_day_fields
    (label_dmy (py "Monday") (PyStr.of_Z 22) (py "nd") (py "August")
       (PyStr.of_Z 2025))
  = (Some 8, Some 22, Some 2025)%Z.
Proof.
  refine (proj1 (proj1 (proj2 (proj2 (proj2 (proj2 (proj2
                   day_label_parsing)))))
                   (py "August") 22%Z (py "nd") 2025%Z 8%Z _ _ _ _ _)).
  - simpl; tauto.
  - vm_compute. do 21 right. now left.
  - simpl; tauto.
  - simpl; tauto.
  - reflexivity.
Defined.

End Claims.

Unset Implicit Arguments.

(** ** Further properties of the event loop *)

Module LoopFacts.

Import Live Datetime Spec GameFacts Examples.

Lemma mem_In (A : Type) (k : str) (d : list (str * A)) :
  mem k d = true -> In k (map fst d).
Proof.
  unfold mem. induction d as [| [k' v] d IH]; [discriminate |].
  cbn [get map fst In]. destruct (PyStr.eqb k k') eqn:E.
  - apply eqb_eq in E. subst. now left.
  - intros H. right. now apply IH.
Qed.

Lemma first_label_In (t : str) :
  forall pats l, first_label pats t = Some l -> In l (map snd pats).
Proof.
  induction pats as [| [rx l'] pats IH]; intros l; [discriminate |].
  cbn [first_label map snd In]. destruct (Re.search rx t).
  - intros [= ->]. now left.
  - intros H. right. now apply IH.
Qed.

Lemma dropwhile_all (f : ascii -> bool) (s : str) :
  forallb f s = true -> PyStr.dropwhile f s = [].
Proof.
  induction s as [| c s IH]; [reflexivity |].
  simpl. destruct (f c); [exact IH | discriminate].
Qed.

Lemma strip_blank (s : str) : blank s = true -> PyStr.strip s = [].
Proof.
  intros H. unfold PyStr.strip, PyStr.strip_by, PyStr.lstrip_by, PyStr.rstrip_by.
  now rewrite (dropwhile_all _ _ H).
Qed.

(** The loop body appends a record as soon as every test passes. *)
Lemma process_game_emit pytz now day category_src soccer whitelisted
    (g : game) eff mapped start rome :
  raw_title g <> [] ->
  effective_category category_src soccer whitelisted (raw_title g)
    = Some eff ->
  (eff = py "Tennis" -> Re.search RX_TENNIS (raw_title g) = true) ->
  map_category eff (raw_title g) = Some mapped ->
  parse_event_datetime pytz now day (time_str g) = Ok start ->
  rome_string pytz start = Ok rome ->
  streams_of (extract_event_title (raw_title g)) eff (channels g) <> [] ->
  process_game pytz now day category_src soccer whitelisted g
  = Ok (Some (record_of g eff mapped start rome)).
Proof.
  intros Hraw Heff Hten Hmap Hstart Hrome Hst. rewrite process_game_Game.
  unfold record_of.
  destruct (raw_title g) as [| c0 raw] eqn:Er; [now elim Hraw |].
  cbn [truthy negb]. rewrite Heff.
  assert (G : PyStr.eqb eff (py "Tennis")
              && negb (Re.search RX_TENNIS (c0 :: raw)) = false).
  { destruct (PyStr.eqb eff (py "Tennis")) eqn:E; [| reflexivity].
    apply eqb_eq in E. now rewrite (Hten E). }
  rewrite G, Hmap, Hstart. cbn [bind]. rewrite Hrome. cbn [bind].
  destruct (streams_of (extract_event_title (c0 :: raw)) eff (channels g));
    [now elim Hst | reflexivity].
Qed.

(** At an event of the shape of the feed the loop body raises exactly
    what the date or its conversion raises, and only for an event that has
    passed the tests on its category. *)
Lemma process_game_raise pytz now day category_src soccer whitelisted
    (g : game) x :
  process_game pytz now day category_src soccer whitelisted g = Raise x <->
  raw_title g <> [] /\
  exists eff mapped,
    effective_category category_src soccer whitelisted (raw_title g)
      = Some eff /\
    (eff = py "Tennis" -> Re.search RX_TENNIS (raw_title g) = true) /\
    map_category eff (raw_title g) = Some mapped /\
    (parse_event_datetime pytz now day (time_str g) = Raise x \/
     exists start,
       parse_event_datetime pytz now day (time_str g) = Ok start /\
       rome_string pytz start = Raise x).
Proof.
  rewrite process_game_Game.
  destruct (raw_title g) as [| c0 raw] eqn:Er.
  { cbn [truthy negb]. split; [discriminate | intros [H _]; now elim H]. }
  cbn [truthy negb].
  destruct (effective_category category_src soccer whitelisted (c0 :: raw))
    as [eff |] eqn:Heff.
  2:{ split; [discriminate | intros (_ & eff & mapped & H & _); discriminate H]. }
  destruct (PyStr.eqb eff (py "Tennis")
            && negb (Re.search RX_TENNIS (c0 :: raw))) eqn:G.
  { split; [discriminate |].
    intros (_ & eff' & mapped & [= <-] & Hten & _).
    apply andb_prop in G. destruct G as [G1 G2]. apply eqb_eq in G1.
    rewrite (Hten G1) in G2. discriminate G2. }
  destruct (map_category eff (c0 :: raw)) as [mapped |] eqn:Hmap.
  2:{ split; [discriminate |].
      intros (_ & eff' & mapped & [= <-] & _ & H & _). congruence. }
  assert (Hten : eff = py "Tennis" -> Re.search RX_TENNIS (c0 :: raw) = true).
  { intros ->. rewrite eqb_refl in G.
    now destruct (Re.search RX_TENNIS (c0 :: raw)). }
  destruct (parse_event_datetime pytz now day (time_str g)) as [start | y]
    eqn:Hstart; cbn [bind].
  - destruct (rome_string pytz start) as [rome | y] eqn:Hrome; cbn [bind].
    + split.
      * destruct (streams_of (extract_event_title (c0 :: raw)) eff (channels g));
          discriminate.
      * intros (_ & eff' & mapped' & [= <-] & _ & _ & [H | (st & [= <-] & H)]);
          congruence.
    + split.
      * intros [= ->]. split; [discriminate |]. exists eff, mapped.
        repeat (split; [assumption || reflexivity |]).
        right. exists start. now split.
      * intros (_ & eff' & mapped' & [= <-] & _ & _ & [H | (st & [= <-] & H)]);
          congruence.
  - split.
    + intros [= ->]. split; [discriminate |]. exists eff, mapped.
      repeat (split; [assumption || reflexivity |]). now left.
    + intros (_ & eff' & mapped' & [= <-] & _ & _ & [H | (st & H & _)]);
        congruence.
Qed.

(** *** The three loops as one traversal *)

Lemma bind_assoc (A B C : Type) (m : exc A) (f : A -> exc B) (h : B -> exc C) :
  bind (bind m f) h = bind m (fun a => bind (f a) h).
Proof. now destruct m. Qed.

Lemma collect_app (f : job -> exc (option entry)) (a b : list job) :
  collect f (a ++ b) =
  (x <- collect f a ;; y <- collect f b ;; Ok (x ++ y)).
Proof.
  induction a as [| j a IH]; simpl.
  - now destruct (collect f b).
  - destruct (f j) as [r | e]; [| reflexivity]. cbn [bind]. rewrite IH.
    destruct (collect f a) as [x | e]; [| reflexivity]. cbn [bind].
    destruct (collect f b) as [y | e]; [| reflexivity]. cbn [bind].
    now destruct r.
Qed.

Lemma for_games_collect pytz now day raw :
  forall events acc,
    for_games pytz now day (clean_category_key raw)
      (elem (PyStr.lower (clean_category_key raw)) SOCCER_CONTAINER_NAMES)
      (should_include_category (clean_category_key raw)) events acc
    = (new <- collect (run_job pytz now)
                (map (fun g => (day, raw, g)) events) ;;
       Ok (acc ++ new)).
Proof.
  induction events as [| g rest IH]; intros acc.
  - simpl. now rewrite app_nil_r.
  - cbn [for_games map collect run_job].
    destruct (process_game pytz now day (clean_category_key raw)
                (elem (PyStr.lower (clean_category_key raw))
                   SOCCER_CONTAINER_NAMES)
                (should_include_category (clean_category_key raw)) g)
      as [r | e]; [| reflexivity].
    cbn [bind]. rewrite IH.
    destruct (collect (run_job pytz now) (map (fun g0 => (day, raw, g0)) rest))
      as [out | e]; [| reflexivity].
    cbn [bind]. destruct r; [| reflexivity].
    now rewrite <- app_assoc.
Qed.

Lemma for_categories_collect pytz now day :
  forall cats acc,
    for_categories pytz now day cats acc
    = (new <- collect (run_job pytz now) (jobs_of_day day (DayDict cats)) ;;
       Ok (acc ++ new)).
Proof.
  induction cats as [| [raw v] cats IH]; intros acc.
  - simpl. now rewrite app_nil_r.
  - cbn [for_categories jobs_of_day flat_map fst snd].
    rewrite collect_app. destruct v as [l |].
    + rewrite for_games_collect. cbn [games_of_events].
      destruct (collect (run_job pytz now) (map (fun g => (day, raw, g)) l))
        as [x | e]; [| reflexivity].
      cbn [bind]. rewrite IH. unfold jobs_of_day.
      match goal with
      | |- bind ?m _ = _ => destruct m as [y | e]; [| reflexivity]
      end.
      cbn [bind]. now rewrite <- app_assoc.
    + cbn [games_of_events map collect bind]. rewrite IH. unfold jobs_of_day.
      match goal with
      | |- bind ?m _ = _ => destruct m as [y | e]; reflexivity
      end.
Qed.

Lemma for_days_collect pytz now :
  forall sched acc,
    for_days pytz now sched acc
    = (new <- collect (run_job pytz now) (jobs_of sched) ;; Ok (acc ++ new)).
Proof.
  induction sched as [| [day v] sched IH]; intros acc.
  - simpl. now rewrite app_nil_r.
  - cbn [for_days jobs_of flat_map fst snd]. rewrite collect_app.
    destruct v as [cats |].
    + rewrite for_categories_collect.
      destruct (collect (run_job pytz now) (jobs_of_day day (DayDict cats)))
        as [x | e]; [| reflexivity].
      cbn [bind]. rewrite IH. fold (jobs_of sched).
      destruct (collect (run_job pytz now) (jobs_of sched)) as [y | e];
        [| reflexivity].
      cbn [bind]. now rewrite <- app_assoc.
    + cbn [jobs_of_day collect bind]. rewrite IH. fold (jobs_of sched).
      now destruct (collect (run_job pytz now) (jobs_of sched)).
Qed.

(** [main] visits the events in the order of the loops and stops at the
    first exception. *)
Lemma main_collect pytz now sched :
  main pytz now sched = collect (run_job pytz now) (jobs_of sched).
Proof.
  unfold main. rewrite for_days_collect.
  now destruct (collect (run_job pytz now) (jobs_of sched)).
Qed.

Lemma collect_ok (f : job -> exc (option entry)) :
  forall jobs out,
    collect f jobs = Ok out <->
    exists rs,
      Forall2 (fun j r => f j = Ok r) jobs rs /\
      out = flat_map (fun r => match r with Some e => [e] | None => [] end) rs.
Proof.
  induction jobs as [| j jobs IH]; intros out.
  - simpl. split.
    + intros [= <-]. exists []. split; [constructor | reflexivity].
    + intros (rs & H & ->). inversion H; subst. reflexivity.
  - cbn [collect]. split.
    + intros H. apply bind_ok in H. destruct H as (r & Hr & H).
      apply bind_ok in H. destruct H as (out' & Hout & [= <-]).
      apply IH in Hout. destruct Hout as (rs & HF & ->).
      exists (r :: rs). split; [now constructor |]. now destruct r.
    + intros (rs & H & ->). inversion H as [| ? r ? rs' Hr HF]; subst.
      rewrite Hr. cbn [bind].
      assert (E : collect f jobs
                  = Ok (flat_map (fun r => match r with
                                           | Some e => [e]
                                           | None => []
                                           end) rs')).
      { apply IH. now exists rs'. }
      rewrite E. cbn [bind flat_map]. now destruct r.
Qed.

Lemma collect_raise (f : job -> exc (option entry)) :
  forall jobs x,
    collect f jobs = Raise x <->
    exists pre j post,
      jobs = pre ++ j :: post /\
      Forall (fun j' => is_ok (f j')) pre /\ f j = Raise x.
Proof.
  induction jobs as [| j jobs IH]; intros x.
  - simpl. split; [discriminate |].
    intros (pre & j & post & H & _). now destruct pre.
  - cbn [collect]. split.
    + destruct (f j) as [r | e] eqn:Hr; cbn [bind].
      * destruct (collect f jobs) as [out | e] eqn:Hc; cbn [bind];
          [discriminate |].
        intros [= ->]. destruct (proj1 (IH x) eq_refl)
          as (pre & j' & post & -> & Hpre & Hj).
        exists (j :: pre), j', post. split; [reflexivity |].
        split; [constructor; [now exists r | exact Hpre] | exact Hj].
      * intros [= ->]. exists [], j, jobs. repeat split; [constructor | exact Hr].
    + intros (pre & j' & post & Heq & Hpre & Hj).
      destruct pre as [| p pre].
      * injection Heq as -> ->. now rewrite Hj.
      * injection Heq as -> ->. inversion Hpre as [| ? ? [r Hr] Hpre']; subst.
        rewrite Hr. cbn [bind].
        assert (E : collect f (pre ++ j' :: post) = Raise x).
        { apply IH. now exists pre, j', post. }
        now rewrite E.
Qed.

(** *** Events of any shape *)

Lemma event_text_ok (ev : event_field) (raw : str) :
  event_text ev = Ok raw ->
  raw = raw_title {| event := match ev with
                              | EventStr s => Some s
                              | _ => None
                              end;
                     time := TimeMissing; channels := [] |}.
Proof. destruct ev; [intros [= <-] | intros [= <-] | discriminate]; reflexivity. Qed.

(** A record comes from an event of the shape of the feed only. *)
Lemma process_game_some_shape pytz now day category_src soccer whitelisted
    (x : game_val) (e : entry) :
  process_game pytz now day category_src soccer whitelisted x = Ok (Some e) ->
  exists g : game, x = Game g.
Proof.
  destruct x as [ev tm chs |]; [| discriminate].
  destruct ev as [| s |].
  - discriminate.
  - destruct chs as [l |].
    + intros _. now exists {| event := Some s; time := tm; channels := l |}.
    + cbn [process_game event_text bind].
      destruct (negb (truthy (PyStr.strip s))); [discriminate |].
      destruct (effective_category category_src soccer whitelisted
                  (PyStr.strip s)) as [eff |]; [| discriminate].
      destruct (PyStr.eqb eff (py "Tennis")
                && negb (Re.search RX_TENNIS (PyStr.strip s)));
        [discriminate |].
      destruct (map_category eff (PyStr.strip s)) as [mapped |];
        [| discriminate].
      destruct (parse_event_datetime pytz now day (time_or_default tm))
        as [start | y]; [| discriminate].
      cbn [bind]. destruct (rome_string pytz start) as [rome | y];
        discriminate.
  - discriminate.
Qed.

(** When the loop body raises: on an event that is no object or whose
    title is no text, on the date of an event that has passed the tests on
    its category, and on its channels when they cannot be iterated. *)
Lemma process_game_raise_dict pytz now day category_src soccer whitelisted
    (ev : event_field) (tm : time_field) (chs : channels_field) (x : exn) :
  process_game pytz now day category_src soccer whitelisted
    (GameDict ev tm chs) = Raise x <->
  (ev = EventOther /\ x = AttributeError) \/
  exists raw eff mapped,
    event_text ev = Ok raw /\ raw <> [] /\
    effective_category category_src soccer whitelisted raw = Some eff /\
    (eff = py "Tennis" -> Re.search RX_TENNIS raw = true) /\
    map_category eff raw = Some mapped /\
    (parse_event_datetime pytz now day (time_or_default tm) = Raise x \/
     exists start,
       parse_event_datetime pytz now day (time_or_default tm) = Ok start /\
       (rome_string pytz start = Raise x \/
        (is_ok (rome_string pytz start) /\
         chs = ChannelsOther /\ x = TypeError))).
Proof.
  cbn [process_game].
  destruct (event_text ev) as [raw0 | y] eqn:Ev; cbn [bind].
  2:{ destruct ev; try discriminate Ev. injection Ev as <-. split.
      - intros [= <-]. now left.
      - intros [[_ ->] | (raw' & eff & mapped & H & _)];
          [reflexivity | discriminate H]. }
  assert (Hev : ev <> EventOther) by (intros ->; discriminate Ev).
  destruct raw0 as [| c0 raw] eqn:Er.
  { cbn [truthy negb]. split; [discriminate |].
    intros [[H _] | (raw' & eff & mapped & [= <-] & H & _)];
      [now elim Hev | now elim H]. }
  cbn [truthy negb].
  destruct (effective_category category_src soccer whitelisted (c0 :: raw))
    as [eff |] eqn:Heff.
  2:{ split; [discriminate |].
      intros [[H _] | (raw' & eff & mapped & [= <-] & _ & H & _)];
        [now elim Hev | congruence]. }
  destruct (PyStr.eqb eff (py "Tennis")
            && negb (Re.search RX_TENNIS (c0 :: raw))) eqn:G.
  { split; [discriminate |].
    intros [[H _] | (raw' & eff' & mapped & [= <-] & _ & Heff' & Hten & _)];
      [now elim Hev |].
    rewrite Heff in Heff'. injection Heff' as <-.
    apply andb_prop in G. destruct G as [G1 G2]. apply eqb_eq in G1.
    rewrite (Hten G1) in G2. discriminate G2. }
  destruct (map_category eff (c0 :: raw)) as [mapped |] eqn:Hmap.
  2:{ split; [discriminate |].
      intros [[H _] | (raw' & eff' & mapped & [= <-] & _ & Heff' & _ & H & _)];
        [now elim Hev |].
      rewrite Heff in Heff'. injection Heff' as <-. congruence. }
  assert (Hten : eff = py "Tennis" -> Re.search RX_TENNIS (c0 :: raw) = true).
  { intros ->. rewrite eqb_refl in G.
    now destruct (Re.search RX_TENNIS (c0 :: raw)). }
  assert (Pass : forall P : Prop, P ->
            (ev = EventOther /\ x = AttributeError) \/
            exists raw' eff' mapped',
              Ok (c0 :: raw) = Ok raw' /\ raw' <> [] /\
              effective_category category_src soccer whitelisted raw'
                = Some eff' /\
              (eff' = py "Tennis" -> Re.search RX_TENNIS raw' = true) /\
              map_category eff' raw' = Some mapped' /\ P).
  { intros P HP. right. exists (c0 :: raw), eff, mapped.
    split; [reflexivity |]. split; [discriminate |].
    split; [exact Heff |]. split; [exact Hten |]. split; [exact Hmap |].
    exact HP. }
  destruct (parse_event_datetime pytz now day (time_or_default tm))
    as [start | y] eqn:Hstart; cbn [bind].
  - destruct (rome_string pytz start) as [rome | y] eqn:Hrome; cbn [bind].
    + destruct chs as [l |]; cbn [for_channels bind].
      * split.
        -- destruct (streams_of (extract_event_title (c0 :: raw)) eff l);
             discriminate.
        -- intros [[H _] | (raw' & eff' & mapped' & _ & _ & _ & _ & _ & H)];
             [now elim Hev |].
           destruct H as [H | (st & [= <-] & [H | (_ & H & _)])];
             [discriminate H | congruence | discriminate H].
      * split.
        -- intros [= <-]. apply Pass. right. exists start.
           split; [reflexivity |]. right.
           split; [now exists rome |]. now split.
        -- intros [[H _] | (raw' & eff' & mapped' & _ & _ & _ & _ & _ & H)];
             [now elim Hev |].
           destruct H as [H | (st & [= <-] & [H | (_ & _ & ->)])];
             [discriminate H | congruence | reflexivity].
    + split.
      * intros [= ->]. apply Pass. right. exists start.
        split; [reflexivity |]. now left.
      * intros [[H _] | (raw' & eff' & mapped' & _ & _ & _ & _ & _ & H)];
          [now elim Hev |].
        destruct H as [H | (st & [= <-] & [H | ([rome Hr] & _)])];
          [discriminate H | congruence | congruence].
  - split.
    + intros [= ->]. apply Pass. now left.
    + intros [[H _] | (raw' & eff' & mapped' & _ & _ & _ & _ & _ & H)];
        [now elim Hev |].
      destruct H as [H | (st & H & _)]; congruence.
Qed.

End LoopFacts.

(** ** Further properties of the records *)

Module RecordFacts.

Import Live Datetime Spec GameFacts StrFacts LoopFacts Examples.

(** *** Trimming *)

Lemma dropwhile_app (f : ascii -> bool) (a b : str) :
  PyStr.dropwhile f (a ++ b) =
  match PyStr.dropwhile f a with
  | [] => PyStr.dropwhile f b
  | r => r ++ b
  end.
Proof.
  induction a as [| c a IH]; [reflexivity |].
  cbn [app PyStr.dropwhile]. destruct (f c); [exact IH | reflexivity].
Qed.

Lemma rstrip_cons (f : ascii -> bool) (c : ascii) (l : str) :
  PyStr.rstrip_by f (c :: l) =
  match PyStr.rstrip_by f l with
  | [] => if f c then [] else [c]
  | r => c :: r
  end.
Proof.
  unfold PyStr.rstrip_by. cbn [rev]. rewrite dropwhile_app.
  destruct (PyStr.dropwhile f (rev l)) as [| x r] eqn:E.
  - cbn [rev PyStr.dropwhile]. now destruct (f c).
  - rewrite rev_app_distr. cbn [rev app].
    destruct (rev r ++ [x]) eqn:E2; [now destruct (rev r) | reflexivity].
Qed.

Lemma rstrip_last (f : ascii -> bool) :
  forall l x, last_or None (PyStr.rstrip_by f l) = Some x -> f x = false.
Proof.
  induction l as [| c l IH]; intros x; [discriminate |].
  rewrite rstrip_cons. destruct (PyStr.rstrip_by f l) as [| y r] eqn:E.
  - destruct (f c) eqn:Hc; [discriminate |].
    cbn. intros [= <-]. exact Hc.
  - rewrite ReFacts.last_or_cons.
    rewrite ReFacts.last_or_nonempty by discriminate. apply IH.
Qed.

Lemma rstrip_head (f : ascii -> bool) (c : ascii) (l : str) :
  f c = false -> exists r, PyStr.rstrip_by f (c :: l) = c :: r.
Proof.
  intros H. rewrite rstrip_cons, H.
  destruct (PyStr.rstrip_by f l) as [| y r]; eauto.
Qed.

Lemma dropwhile_head (f : ascii -> bool) (s : str) :
  match PyStr.dropwhile f s with
  | [] => True
  | c :: _ => f c = false
  end.
Proof.
  induction s as [| c s IH]; [exact I |].
  cbn [PyStr.dropwhile]. destruct (f c) eqn:E; [exact IH | exact E].
Qed.

(** [strip] leaves no blank at either end. *)
Lemma strip_trimmed (s : str) : trimmed (PyStr.strip s).
Proof.
  unfold trimmed, PyStr.strip, PyStr.strip_by, PyStr.lstrip_by. split.
  - pose proof (dropwhile_head Chr.isspace s) as H.
    destruct (PyStr.dropwhile Chr.isspace s) as [| c l]; [exact I |].
    destruct (rstrip_head Chr.isspace c l H) as [r ->]. exact H.
  - destruct (last_or None
                (PyStr.rstrip_by Chr.isspace (PyStr.dropwhile Chr.isspace s)))
      as [x |] eqn:E; [| exact I].
    exact (rstrip_last _ _ _ E).
Qed.

(** A text that starts with a character that is no blank keeps it. *)
Lemma strip_head (c : ascii) (l : str) :
  Chr.isspace c = false -> exists r, PyStr.strip (c :: l) = c :: r.
Proof.
  intros H. unfold PyStr.strip, PyStr.strip_by, PyStr.lstrip_by.
  cbn [PyStr.dropwhile]. rewrite H. now apply rstrip_head.
Qed.

Lemma rstrip_fixed (f : ascii -> bool) :
  forall l,
    match last_or None l with Some x => f x = false | None => True end ->
    PyStr.rstrip_by f l = l.
Proof.
  induction l as [| c l IH]; intros H; [reflexivity |].
  rewrite rstrip_cons. destruct l as [| d l].
  - cbn in H. cbn. now rewrite H.
  - rewrite ReFacts.last_or_cons in H.
    rewrite ReFacts.last_or_nonempty in H by discriminate.
    now rewrite (IH H).
Qed.

(** [strip] changes nothing in a text without blank at its ends. *)
Lemma strip_fixed (s : str) : trimmed s -> PyStr.strip s = s.
Proof.
  intros [Hh Hl]. unfold PyStr.strip, PyStr.strip_by, PyStr.lstrip_by.
  assert (E : PyStr.dropwhile Chr.isspace s = s).
  { destruct s as [| c l]; [reflexivity |]. cbn. now rewrite Hh. }
  rewrite E. apply rstrip_fixed.
  destruct (last_or None s); [exact Hl | exact I].
Qed.

(** *** The extracted title *)

Lemma digit_not_space (c : ascii) :
  Chr.isdigit c = true -> Chr.isspace c = false.
Proof.
  destruct c as [[] [] [] [] [] [] [] []]; intros H;
    first [reflexivity | discriminate H].
Qed.

Lemma split_rest (cur s : str) :
  PyStr.split_aux [":"%char] (Some 0) 0 cur s = [rev cur ++ s].
Proof.
  revert cur. induction s as [| c s IH]; intros cur.
  - simpl. now rewrite app_nil_r.
  - cbn [PyStr.split_aux andb]. rewrite IH. simpl. now rewrite <- app_assoc.
Qed.

Lemma time_prefix_tail p s p' s' :
  matches (Re.seq [Re.chr ":"; Re.digit; Re.digit; Re.chr ":"]) p s p' s' ->
  exists m1 m2,
    s = ":"%char :: m1 :: m2 :: ":"%char :: s' /\
    Chr.isdigit m1 = true /\ Chr.isdigit m2 = true.
Proof.
  intros H.
  apply ReFacts.matches_seq_cons in H. destruct H as (p4 & s4 & H3 & H).
  apply ReFacts.matches_cls_inv in H3. destruct H3 as (c3 & -> & Hc3 & ->).
  apply Ascii.eqb_eq in Hc3. subst c3.
  apply ReFacts.matches_seq_cons in H. destruct H as (p5 & s5 & H4 & H).
  apply ReFacts.matches_cls_inv in H4. destruct H4 as (m1 & -> & Hm1 & ->).
  apply ReFacts.matches_seq_cons in H. destruct H as (p6 & s6 & H5 & H).
  apply ReFacts.matches_cls_inv in H5. destruct H5 as (m2 & -> & Hm2 & ->).
  simpl Re.seq in H.
  apply ReFacts.matches_cls_inv in H. destruct H as (c6 & -> & Hc6 & ->).
  apply Ascii.eqb_eq in Hc6. subst c6.
  exists m1, m2. now repeat split.
Qed.

(** The texts that the pattern of the time prefix accepts. *)
Lemma time_prefix_shape (raw : str) :
  Re.matches_start RX_TIME_PREFIX raw = true ->
  exists hh m1 m2 rest,
    raw = hh ++ ":"%char :: m1 :: m2 :: ":"%char :: rest /\
    hh <> [] /\ Forall (fun c => Chr.isdigit c = true) hh /\
    Chr.isdigit m1 = true /\ Chr.isdigit m2 = true.
Proof.
  unfold Re.matches_start.
  destruct (Re.match_at RX_TIME_PREFIX None raw) eqn:E; [| discriminate].
  intros _.
  assert (H : Re.match_at RX_TIME_PREFIX None raw <> None) by congruence.
  apply ReFacts.match_at_accepts in H. destruct H as (p' & s' & H).
  unfold RX_TIME_PREFIX in H.
  apply ReFacts.matches_seq_cons in H. destruct H as (p1 & s1 & H0 & H).
  inversion H0; subst. clear H0.
  apply ReFacts.matches_seq_cons in H. destruct H as (p2 & s2 & H1 & H).
  apply ReFacts.matches_cls_inv in H1. destruct H1 as (h1 & -> & Hh1 & ->).
  apply ReFacts.matches_seq_cons in H. destruct H as (p3 & s3 & H2 & H).
  apply time_prefix_tail in H. destruct H as (m1 & m2 & Hs3 & Hm1 & Hm2).
  unfold Re.opt in H2. apply ReFacts.matches_alt_inv in H2.
  destruct H2 as [H2 | H2].
  - apply ReFacts.matches_cls_inv in H2. destruct H2 as (h2 & -> & Hh2 & _).
    exists [h1; h2], m1, m2, s'. rewrite Hs3.
    repeat split; try assumption;
      [discriminate | repeat constructor; assumption].
  - apply ReFacts.matches_eps_inv in H2. destruct H2 as [_ <-].
    exists [h1], m1, m2, s'. rewrite Hs3.
    repeat split; try assumption;
      [discriminate | repeat constructor; assumption].
Qed.

Lemma split_first_colon :
  forall hh cur rest,
    Forall (fun c => Chr.isdigit c = true) hh ->
    PyStr.split_aux [":"%char] (Some 1) 0 cur (hh ++ ":"%char :: rest)
    = [rev cur ++ hh; rest].
Proof.
  induction hh as [| h hh IH]; intros cur rest Hd.
  - cbn [app PyStr.split_aux PyStr.starts_with andb Ascii.eqb Bool.eqb
           option_map pred length Nat.sub].
    rewrite split_rest. now rewrite app_nil_r.
  - inversion Hd as [| ? ? Hh Hd']; subst.
    cbn [app PyStr.split_aux PyStr.starts_with].
    rewrite (Claims.digit_not_colon h Hh). cbn [andb].
    rewrite (IH (h :: cur) rest Hd'). cbn [rev]. now rewrite <- app_assoc.
Qed.

(** With a time prefix the extracted title is the text after the first
    colon, trimmed: it starts with the minutes of the prefix. *)
Lemma extract_event_title_after_hour (raw : str) :
  Re.matches_start RX_TIME_PREFIX raw = true ->
  exists m1 m2 rest,
    Chr.isdigit m1 = true /\ Chr.isdigit m2 = true /\
    extract_event_title raw = PyStr.strip (m1 :: m2 :: ":"%char :: rest).
Proof.
  intros H. unfold extract_event_title. rewrite H.
  apply time_prefix_shape in H.
  destruct H as (hh & m1 & m2 & rest & -> & _ & Hd & Hm1 & Hm2).
  exists m1, m2, rest. repeat (split; [assumption |]).
  unfold PyStr.split. now rewrite (split_first_colon hh [] _ Hd).
Qed.

(** The extracted title of a trimmed, non-empty raw title is not empty
    and has no blank at its ends. *)
Lemma extract_event_title_nonempty (raw : str) :
  raw <> [] -> trimmed raw ->
  extract_event_title raw <> [] /\ trimmed (extract_event_title raw).
Proof.
  intros Hne Ht.
  destruct (Re.matches_start RX_TIME_PREFIX raw) eqn:E.
  - destruct (extract_event_title_after_hour raw E)
      as (m1 & m2 & rest & Hm1 & _ & ->).
    split; [| apply strip_trimmed].
    destruct (strip_head m1 (m2 :: ":"%char :: rest) (digit_not_space m1 Hm1))
      as [r ->]. discriminate.
  - unfold extract_event_title. rewrite E. rewrite (strip_fixed raw Ht).
    now split.
Qed.

Lemma raw_title_trimmed (g : game) : trimmed (raw_title g).
Proof. apply strip_trimmed. Qed.

(** *** From the loop body to the output of [main] *)

Lemma main_Forall (Q : entry -> Prop) pytz now sched out :
  (forall j e, In j (jobs_of sched) -> run_job pytz now j = Ok (Some e) -> Q e) ->
  main pytz now sched = Ok out -> Forall Q out.
Proof.
  intros HQ H. rewrite main_collect in H. apply collect_ok in H.
  destruct H as (rs & HF & ->). revert HQ.
  induction HF as [| j r jobs rs Hr HF IH]; intros HQ; [constructor |].
  cbn [flat_map]. apply Forall_app. split.
  - destruct r as [e |]; [| constructor].
    constructor; [| constructor]. apply (HQ j e); [now left | exact Hr].
  - apply IH. intros j' e Hin. apply HQ. now right.
Qed.

(** *** Identifiers *)

Lemma In_dropwhile (f : ascii -> bool) (x : ascii) :
  forall s, In x (PyStr.dropwhile f s) -> In x s.
Proof.
  induction s as [| c s IH]; [intros [] |].
  cbn [PyStr.dropwhile]. destruct (f c); [| trivial].
  intros H. right. now apply IH.
Qed.

Lemma In_strip_by (f : ascii -> bool) (x : ascii) (s : str) :
  In x (PyStr.strip_by f s) -> In x s.
Proof.
  unfold PyStr.strip_by, PyStr.rstrip_by, PyStr.lstrip_by. intros H.
  apply in_rev, In_dropwhile, in_rev in H. now apply In_dropwhile in H.
Qed.

Lemma In_firstn (A : Type) (x : A) :
  forall n l, In x (firstn n l) -> In x l.
Proof.
  induction n as [| n IH]; intros [| a l]; simpl; try tauto.
  intros [H | H]; [now left | right; now apply IH].
Qed.

Lemma hyphenate_chars :
  forall s b,
    Forall (fun c => Chr.isupper c = false) s ->
    Forall (fun c => id_char c = true) (hyphenate b s).
Proof.
  induction s as [| c s IH]; intros b Hs; [constructor |].
  inversion Hs as [| ? ? Hc Hs']; subst. cbn [hyphenate].
  destruct (Chr.isalnum c) eqn:Ha.
  - constructor; [| now apply IH].
    unfold Chr.isalnum, Chr.isalpha in Ha. rewrite Hc in Ha. cbn in Ha.
    unfold id_char. now rewrite Ha.
  - destruct b; [now apply IH |]. constructor; [reflexivity | now apply IH].
Qed.

Lemma slug_chars (title : str) : Forall (fun c => id_char c = true) (slug title).
Proof.
  assert (H : Forall (fun c => id_char c = true)
                (hyphenate false (PyStr.lower title))).
  { apply hyphenate_chars. apply Forall_forall. intros c Hc.
    apply in_map_iff in Hc. destruct Hc as (x & <- & _).
    apply SlugFacts.isupper_lower. }
  rewrite Forall_forall in H. apply Forall_forall. intros x Hx.
  apply H. unfold slug, trim_hyphens in Hx.
  now apply In_firstn, In_strip_by in Hx.
Qed.

Lemma strip_by_head (f : ascii -> bool) (s : str) :
  match PyStr.strip_by f s with
  | [] => True
  | c :: _ => f c = false
  end.
Proof.
  unfold PyStr.strip_by, PyStr.lstrip_by.
  pose proof (dropwhile_head f s) as H.
  destruct (PyStr.dropwhile f s) as [| c l]; [exact I |].
  destruct (rstrip_head f c l H) as [r ->]. exact H.
Qed.

Lemma slug_head (title : str) :
  match slug title with
  | [] => True
  | c :: _ => c <> "-"%char
  end.
Proof.
  unfold slug, trim_hyphens.
  pose proof (strip_by_head (fun c => Ascii.eqb c "-")
                (hyphenate false (PyStr.lower title))) as H.
  destruct (PyStr.strip_by (fun c => Ascii.eqb c "-")
              (hyphenate false (PyStr.lower title))) as [| c l];
    [exact I |].
  cbn [firstn]. intros ->. discriminate H.
Qed.

Lemma digits_fuel_nonempty (fuel : nat) (n : N) (acc : str) :
  PyStr.digits_fuel (S fuel) n acc <> [].
Proof.
  revert n acc. induction fuel as [| fuel IH]; intros n acc.
  - cbn [PyStr.digits_fuel]. destruct (n <? 10)%N; discriminate.
  - change (PyStr.digits_fuel (S (S fuel)) n acc)
      with (let d := ascii_of_N (48 + n mod 10) in
            if (n <? 10)%N then d :: acc
            else PyStr.digits_fuel (S fuel) (n / 10) (d :: acc)).
    cbv zeta. destruct (n <? 10)%N; [discriminate | apply IH].
Qed.

Lemma of_Z_nonempty (z : Z) : PyStr.of_Z z <> [].
Proof.
  unfold PyStr.of_Z, PyStr.of_N.
  destruct z; [apply digits_fuel_nonempty | apply digits_fuel_nonempty |
               discriminate].
Qed.

Lemma digit_id_char (c : ascii) : Chr.isdigit c = true -> id_char c = true.
Proof. intros H. unfold id_char. rewrite H. now rewrite orb_true_r. Qed.

Lemma of_Z_chars (z : Z) : Forall (fun c => id_char c = true) (PyStr.of_Z z).
Proof.
  assert (D : forall n, Forall (fun c => id_char c = true) (PyStr.of_N n)).
  { intros n. eapply Forall_impl; [exact digit_id_char |].
    apply digits_fuel_digits. constructor. }
  destruct z; cbn [PyStr.of_Z]; [apply D | apply D |].
  constructor; [reflexivity | apply D].
Qed.

Lemma date_chars (dt : datetime) :
  Forall (fun c => id_char c = true) (strftime_Ymd dt).
Proof.
  assert (D : forall w z, Forall (fun c => id_char c = true) (pad w z)).
  { intros w z. unfold pad.
    eapply Forall_impl; [exact digit_id_char | apply pad_digits]. }
  unfold strftime_Ymd. apply Forall_app. split; [apply of_Z_chars |].
  apply Forall_app. split; apply D.
Qed.

(** *** Streams *)

Lemma occurs_i_app_r (k a b : str) : occurs_i k b -> occurs_i k (a ++ b).
Proof.
  intros (pre & mid & post & -> & H). exists (a ++ pre), mid, post.
  split; [now rewrite <- app_assoc | exact H].
Qed.

Lemma has_keyword_app (a b : str) :
  has_keyword (a ++ b) = false ->
  has_keyword a = false /\ has_keyword b = false.
Proof.
  intros H. split.
  - destruct (has_keyword a) eqn:E; [| reflexivity].
    apply Claims.has_keyword_occurs in E.
    assert (F : has_keyword (a ++ b) = true).
    { apply Claims.has_keyword_occurs.
      destruct E as [E | E]; [left | right]; now apply occurs_i_app_l. }
    congruence.
  - destruct (has_keyword b) eqn:E; [| reflexivity].
    apply Claims.has_keyword_occurs in E.
    assert (F : has_keyword (a ++ b) = true).
    { apply Claims.has_keyword_occurs.
      destruct E as [E | E]; [left | right]; now apply occurs_i_app_r. }
    congruence.
Qed.

Lemma channel_text_clean ch title eff :
  has_keyword (channel_text ch title eff) = false ->
  has_keyword (channel_name ch) = false /\
  has_keyword title = false /\ has_keyword eff = false.
Proof.
  unfold channel_text. intros H.
  apply has_keyword_app in H. destruct H as [H1 H].
  apply has_keyword_app in H. destruct H as [_ H].
  apply has_keyword_app in H. destruct H as [H2 H].
  apply has_keyword_app in H. destruct H as [_ H3]. now repeat split.
Qed.

Lemma stream_shape title eff chs st :
  In st (streams_of title eff chs) ->
  (exists i, i <> [] /\ url st = STREAM_BASE ++ i ++ py ".php") /\
  stream_title st <> [] /\
  has_keyword (stream_title st) = false /\
  has_keyword title = false /\ has_keyword eff = false.
Proof.
  intros H. apply Claims.streams_of_In in H.
  destruct H as (ch & u & _ & Hu & -> & Hk).
  apply channel_text_clean in Hk. destruct Hk as (Hk1 & Hk2 & Hk3).
  cbn [url stream_title]. split; [| split; [| now repeat split]].
  - destruct ch as [[i |] n |]; try discriminate Hu. cbn [get_stream_url] in Hu.
    destruct (id_truthy i) eqn:Ht; [| discriminate Hu]. injection Hu as <-.
    exists (format_id i). split; [| reflexivity].
    destruct i as [s | z]; cbn [format_id].
    + destruct s; [discriminate Ht | discriminate].
    + apply of_Z_nonempty.
  - destruct ch as [[i |] [[| c s] |] |]; try discriminate Hu;
      cbn [channel_name]; discriminate.
Qed.

(** *** Logos *)

Lemma replace_char (a b : ascii) :
  forall s, PyStr.replace [a] [b] s
            = map (fun x => if Ascii.eqb a x then b else x) s.
Proof.
  unfold PyStr.replace. induction s as [| c s IH]; [reflexivity |].
  cbn [PyStr.replace_aux PyStr.starts_with length Nat.sub map].
  rewrite andb_true_r. rewrite IH. now destruct (Ascii.eqb a c).
Qed.

Lemma get_key (A : Type) (d : list (str * A)) (k : str) (v : A) :
  get d k = Some v -> In (k, v) d.
Proof.
  induction d as [| [k' v'] d IH]; [discriminate |]. cbn [get].
  destruct (PyStr.eqb k k') eqn:E.
  - apply eqb_eq in E. subst. intros [= ->]. now left.
  - intros H. right. now apply IH.
Qed.

Lemma png_name_spec (f : str) :
  png_name f = true -> ends_with (py ".png") f /\ ~ In " "%char f.
Proof.
  unfold png_name. intros H. apply andb_prop in H. destruct H as [H1 H2].
  split.
  - apply starts_with_app in H1. destruct H1 as [post H1].
    exists (rev post). apply (f_equal (@rev ascii)) in H1.
    rewrite rev_involutive in H1. rewrite H1, rev_app_distr. reflexivity.
  - intros Hin. apply negb_true_iff in H2.
    assert (E : existsb (Ascii.eqb " ") f = true).
    { apply existsb_exists. exists " "%char. split; [exact Hin | reflexivity]. }
    congruence.
Qed.

Lemma team_file_png (a b : str) :
  png_name (PyStr.replace (py " ") (py "_")
              (PyStr.title (normalize_team a) ++ py "_vs_" ++
               PyStr.title (normalize_team b) ++ py ".png")) = true.
Proof.
  change (py " ") with [" "%char]. change (py "_") with ["_"%char].
  rewrite replace_char. unfold png_name. apply andb_true_intro. split.
  - rewrite !app_assoc, map_app, rev_app_distr. reflexivity.
  - apply negb_true_iff.
    destruct (existsb (Ascii.eqb " ") _) eqn:E; [| reflexivity].
    apply existsb_exists in E. destruct E as (x & Hin & Hx).
    apply Ascii.eqb_eq in Hx. subst x.
    apply in_map_iff in Hin. destruct Hin as (y & Hy & _).
    destruct (Ascii.eqb " " y) eqn:E; [discriminate Hy |].
    subst y. discriminate E.
Qed.

(** A logo is a file of the logo repository, named [*.png], without
    blank. *)
Lemma build_logo_shape (c t l : str) :
  build_logo c t = Some l ->
  exists file, l = LOGO_BASE ++ py "/" ++ file /\ png_name file = true.
Proof.
  unfold build_logo.
  destruct (get COPPA_LOGOS c) as [f |] eqn:Hc.
  { intros [= <-]. exists f. split; [reflexivity |].
    apply get_key in Hc. unfold COPPA_LOGOS in Hc.
    repeat (destruct Hc as [[= <- <-] | Hc]; [reflexivity |]). destruct Hc. }
  destruct (is_motor c).
  { destruct (Re.search RX_MOTOGP t);
      [intros [= <-]; exists (py "MotoGP.png"); split; reflexivity |].
    destruct (Re.search RX_F1 t); [| discriminate].
    intros [= <-]. exists (py "F1.png"). split; reflexivity. }
  destruct (PyStr.eqb c (py "Tennis")).
  { intros [= <-]. exists (py "Tennis.png"). split; reflexivity. }
  destruct (elem c [py "Italy - Serie A"; py "Italy - Serie B"]).
  - destruct (extract_teams t) as [[t1 |] [t2 |]].
    + destruct (truthy t1 && truthy t2).
      * intros [= <-]. eexists. split; [reflexivity | apply team_file_png].
      * destruct (PyStr.eqb c (py "Italy - Serie C")); [| discriminate].
        destruct (Re.search (Re.lit_i "salernitana") t); [| discriminate].
        intros [= <-]. exists (py "Salernitana.png"). split; reflexivity.
    + destruct (PyStr.eqb c (py "Italy - Serie C")); [| discriminate].
      destruct (Re.search (Re.lit_i "salernitana") t); [| discriminate].
      intros [= <-]. exists (py "Salernitana.png"). split; reflexivity.
    + destruct (PyStr.eqb c (py "Italy - Serie C")); [| discriminate].
      destruct (Re.search (Re.lit_i "salernitana") t); [| discriminate].
      intros [= <-]. exists (py "Salernitana.png"). split; reflexivity.
    + destruct (PyStr.eqb c (py "Italy - Serie C")); [| discriminate].
      destruct (Re.search (Re.lit_i "salernitana") t); [| discriminate].
      intros [= <-]. exists (py "Salernitana.png"). split; reflexivity.
  - destruct (PyStr.eqb c (py "Italy - Serie C")); [| discriminate].
    destruct (Re.search (Re.lit_i "salernitana") t); [| discriminate].
    intros [= <-]. exists (py "Salernitana.png"). split; reflexivity.
Qed.

Lemma build_logo_motor (c t : str) :
  is_motor c = true ->
  build_logo c t =
    if Re.search RX_MOTOGP t then Some (LOGO_BASE ++ py "/MotoGP.png")
    else if Re.search RX_F1 t then Some (LOGO_BASE ++ py "/F1.png")
    else None.
Proof.
  intros H. apply is_motor_cases in H.
  destruct H as [-> | ->]; cbv -[Re.search RX_MOTOGP RX_F1]; reflexivity.
Qed.

Lemma build_logo_whitelisted (c t : str) :
  build_logo c t <> None -> should_include_category c = true.
Proof.
  unfold build_logo.
  destruct (get COPPA_LOGOS c) as [f |] eqn:Hc.
  { intros _. apply get_key in Hc. unfold COPPA_LOGOS in Hc.
    repeat (destruct Hc as [[= <- <-] | Hc]; [reflexivity |]). destruct Hc. }
  destruct (is_motor c) eqn:Hm.
  { intros _. apply is_motor_cases in Hm. destruct Hm as [-> | ->]; reflexivity. }
  destruct (PyStr.eqb c (py "Tennis")) eqn:Ht.
  { intros _. apply eqb_eq in Ht. subst. reflexivity. }
  destruct (elem c [py "Italy - Serie A"; py "Italy - Serie B"]) eqn:Hab.
  { intros _. apply elem_In in Hab.
    destruct Hab as [<- | [<- | []]]; reflexivity. }
  destruct (PyStr.eqb c (py "Italy - Serie C")) eqn:Hsc.
  { intros _. apply eqb_eq in Hsc. subst. reflexivity. }
  intros H. now elim H.
Qed.

(** *** Times *)

Lemma times_read :
  forallb (fun h =>
    forallb (fun m =>
      let '(h', m') :=
        parse_time (TimeStr (PyStr.pad 2 (N.of_nat h) ++ py ":" ++
                             PyStr.pad 2 (N.of_nat m))) in
      (h' =? Z.of_nat h)%Z && (m' =? Z.of_nat m)%Z)
      (seq 0 100))
    (seq 0 100) = true.
Proof. vm_compute. reflexivity. Qed.

Lemma split_no_sep (c : ascii) :
  forall s cur,
    ~ In c s -> PyStr.split_aux [c] None 0 cur s = [rev cur ++ s].
Proof.
  induction s as [| x s IH]; intros cur Hn.
  - simpl. now rewrite app_nil_r.
  - cbn [PyStr.split_aux PyStr.starts_with andb].
    assert (E : Ascii.eqb c x = false).
    { apply Ascii.eqb_neq. intros ->. apply Hn. now left. }
    rewrite E. cbn [andb]. rewrite IH by (intros H; apply Hn; now right).
    cbn [rev]. now rewrite <- app_assoc.
Qed.

(** *** Dates *)

Lemma pad4_all :
  forallb (fun a =>
    forallb (fun b =>
      length (PyStr.pad 4 (N.of_nat a * 100 + N.of_nat b)) =? 4)
      (seq 0 100))
    (seq 0 100) = true.
Proof. vm_compute. reflexivity. Qed.

Lemma pad4_length (z : Z) :
  (0 <= z < 10000)%Z -> length (PyStr.pad 4 (Z.to_N z)) = 4.
Proof.
  intros Hz.
  assert (Hq : (0 <= z / 100 < 100)%Z)
    by (split; [apply Z.div_pos; lia | apply Z.div_lt_upper_bound; lia]).
  assert (Hr : (0 <= z mod 100 < 100)%Z) by (apply Z.mod_pos_bound; lia).
  assert (Hz' : z = (100 * (z / 100) + z mod 100)%Z)
    by (apply Z.div_mod; lia).
  assert (Ha : In (Z.to_nat (z / 100)) (seq 0 100)) by (apply in_seq; lia).
  assert (Hb : In (Z.to_nat (z mod 100)) (seq 0 100)) by (apply in_seq; lia).
  pose proof pad4_all as H.
  eapply forallb_In in H; [| exact Ha]. cbv beta in H.
  eapply forallb_In in H; [| exact Hb]. cbv beta in H.
  replace (N.of_nat (Z.to_nat (z / 100)) * 100
           + N.of_nat (Z.to_nat (z mod 100)))%N
    with (Z.to_N z) in H by lia.
  apply Nat.eqb_eq. exact H.
Qed.

(** What [datetime.datetime] has checked. *)
Lemma make_valid (y m d hh mm : Z) (dt : datetime) :
  make y m d hh mm = Ok dt ->
  (1 <= year dt <= 9999)%Z /\ (1 <= month dt <= 12)%Z /\
  (1 <= day dt <= days_in_month (year dt) (month dt))%Z /\
  (0 <= hour dt <= 23)%Z /\ (0 <= minute dt <= 59)%Z /\ second dt = 0%Z.
Proof.
  unfold make.
  destruct (negb (forallb fits_c_int [y; m; d; hh; mm])); [discriminate |].
  match goal with |- (if ?b then _ else _) = _ -> _ => destruct b eqn:V end;
    [| discriminate].
  intros [= <-]. cbn [year month day hour minute second].
  repeat (apply andb_prop in V; destruct V as [V ?]).
  repeat split; lia.
Qed.

Lemma days_in_month_le (y m : Z) : (days_in_month y m <= 31)%Z.
Proof.
  unfold days_in_month.
  repeat match goal with |- context [if ?b then _ else _] => destruct b end;
    lia.
Qed.

Lemma parse_event_datetime_valid now day_str time_uk dt :
  parse_event_datetime None now day_str time_uk = Ok dt ->
  (1 <= year dt <= 9999)%Z /\ (1 <= month dt <= 12)%Z /\
  (1 <= day dt <= days_in_month (year dt) (month dt))%Z /\
  (0 <= hour dt <= 23)%Z /\ (0 <= minute dt <= 59)%Z /\ second dt = 0%Z.
Proof.
  unfold parse_event_datetime.
  destruct (parse_day_fields day_str) as [[m d] y].
  destruct (parse_time time_uk) as [hh mm]. intros H.
  apply bind_ok in H. destruct H as (naive & Hmake & [= <-]).
  exact (make_valid _ _ _ _ _ _ Hmake).
Qed.

Lemma isoformat_length (dt : datetime) :
  (1 <= year dt <= 9999)%Z -> (1 <= month dt <= 12)%Z ->
  (1 <= day dt <= 31)%Z -> (0 <= hour dt <= 23)%Z ->
  (0 <= minute dt <= 59)%Z -> (0 <= second dt <= 59)%Z ->
  length (isoformat_seconds dt) = 19.
Proof.
  intros Hy Hm Hd Hh Hmi Hs. unfold isoformat_seconds, pad.
  rewrite !length_app.
  rewrite pad4_length, !pad2_length by lia. reflexivity.
Qed.

(** *** Category labels *)

Lemma replace_absent (c : ascii) (old new : str) :
  forall s, ~ In c s -> PyStr.replace (c :: old) new s = s.
Proof.
  unfold PyStr.replace. induction s as [| x s IH]; intros Hn; [reflexivity |].
  cbn [PyStr.replace_aux PyStr.starts_with].
  assert (E : Ascii.eqb c x = false).
  { apply Ascii.eqb_neq. intros ->. apply Hn. now left. }
  rewrite E. cbn [andb]. f_equal. apply IH. intros H. apply Hn. now right.
Qed.

Lemma sub_tag_absent (repl : str -> str) :
  forall s p, ~ In "<"%char s -> Re.sub_aux RX_TAG repl 0 p s = s.
Proof.
  induction s as [| x s IH]; intros p Hn; [reflexivity |].
  assert (E : Ascii.eqb "<" x = false).
  { apply Ascii.eqb_neq. intros <-. apply Hn. now left. }
  assert (M : Re.match_at RX_TAG p (x :: s) = None).
  { unfold Re.match_at, RX_TAG, Re.chr. cbn [Re.seq Re.run]. now rewrite E. }
  cbn [Re.sub_aux]. rewrite M. f_equal. apply IH.
  intros H. apply Hn. now right.
Qed.

(** *** Months *)

Lemma index_from_range (m : str) :
  forall names n k,
    index_from n names m = Some k ->
    (n <= k < n + Z.of_nat (length names))%Z.
Proof.
  induction names as [| x names IH]; intros n k; [discriminate |].
  cbn [index_from length]. destruct (PyStr.eqb m x).
  - intros [= <-]. lia.
  - intros H. apply IH in H. lia.
Qed.

(** *** Channels *)

Lemma streams_of_app title eff :
  forall a b,
    streams_of title eff (a ++ b)
    = streams_of title eff a ++ streams_of title eff b.
Proof.
  induction a as [| ch a IH]; intros b; [reflexivity |].
  cbn [app streams_of]. rewrite IH.
  destruct (get_stream_url ch); [| reflexivity].
  now destruct (should_include_channel_text _).
Qed.

Lemma streams_of_length title eff :
  forall chs, length (streams_of title eff chs) <= length chs.
Proof.
  induction chs as [| ch chs IH]; [reflexivity |].
  cbn [streams_of length].
  destruct (get_stream_url ch); [| lia].
  destruct (should_include_channel_text _); cbn [length]; lia.
Qed.


(** *** Letter case *)

Lemma isspace_lower (c : ascii) : Chr.isspace (Chr.lower c) = Chr.isspace c.
Proof. destruct c as [[] [] [] [] [] [] [] []]; reflexivity. Qed.

Lemma free_before_lower (pre : str) :
  free_before (PyStr.lower pre) = free_before pre.
Proof.
  unfold free_before.
  change (last_or None (PyStr.lower pre))
    with (last_or (option_map Chr.lower None) (PyStr.lower pre)).
  rewrite ReFacts.last_or_lower.
  destruct (last_or None pre) as [c |]; [| reflexivity].
  cbn [option_map]. now rewrite ReFacts.isword_lower.
Qed.

Lemma free_after_lower (post : str) :
  free_after (PyStr.lower post) = free_after post.
Proof.
  destruct post as [| c post]; [reflexivity |].
  cbn [PyStr.lower map free_after]. now rewrite ReFacts.isword_lower.
Qed.

Lemma lower_split3 (t pre mid post : str) :
  PyStr.lower t = pre ++ mid ++ post ->
  exists pre' mid' post',
    t = pre' ++ mid' ++ post' /\ PyStr.lower pre' = pre /\
    PyStr.lower mid' = mid /\ PyStr.lower post' = post.
Proof.
  intros H. unfold PyStr.lower in H.
  apply map_eq_app in H. destruct H as (pre' & rest & -> & Hpre & Hrest).
  apply map_eq_app in Hrest. destruct Hrest as (mid' & post' & -> & Hmid & Hpost).
  exists pre', mid', post'. now repeat split.
Qed.

Lemma standalone_lower (w t : str) :
  standalone w (PyStr.lower t) <-> standalone w t.
Proof.
  unfold standalone. split.
  - intros (pre & mid & post & Ht & Hm & Hb & Ha).
    apply lower_split3 in Ht.
    destruct Ht as (pre' & mid' & post' & -> & <- & <- & <-).
    exists pre', mid', post'. split; [reflexivity |].
    rewrite lower_idem in Hm. rewrite free_before_lower in Hb.
    rewrite free_after_lower in Ha. now repeat split.
  - intros (pre & mid & post & -> & Hm & Hb & Ha).
    exists (PyStr.lower pre), (PyStr.lower mid), (PyStr.lower post).
    rewrite !lower_app, lower_idem, free_before_lower, free_after_lower.
    now repeat split.
Qed.

Lemma blanks_lower (ws : str) : blanks (PyStr.lower ws) <-> blanks ws.
Proof.
  unfold blanks, PyStr.lower. rewrite Forall_map. split; intros H;
    (eapply Forall_impl; [| exact H]); intros c Hc; cbv beta in *;
    [now rewrite <- isspace_lower | now rewrite isspace_lower].
Qed.

Lemma lower_hyphen (c : ascii) : Chr.lower c = "-"%char -> c = "-"%char.
Proof.
  destruct c as [[] [] [] [] [] [] [] []]; intros H;
    first [reflexivity | discriminate H].
Qed.

Lemma serie_marker_lower (serie t : str) :
  serie_marker serie (PyStr.lower t) <-> serie_marker serie t.
Proof.
  unfold serie_marker. split.
  - intros (pre & i & ws1 & ws2 & sa & post & Ht & Hi & H1 & H2 & Hs).
    replace (pre ++ i ++ ws1 ++ "-"%char :: ws2 ++ sa ++ post)
      with (pre ++ i ++ (ws1 ++ ["-"%char] ++ ws2 ++ sa ++ post)) in Ht
      by reflexivity.
    apply lower_split3 in Ht.
    destruct Ht as (pre' & i' & r1 & -> & <- & <- & Hr1).
    apply lower_split3 in Hr1.
    destruct Hr1 as (ws1' & h' & r2 & -> & <- & Hh & Hr2).
    apply lower_split3 in Hr2.
    destruct Hr2 as (ws2' & sa' & post' & -> & <- & <- & <-).
    destruct h' as [| h [| ? ?]]; try discriminate Hh.
    injection Hh as Hh. apply lower_hyphen in Hh. subst h.
    exists pre', i', ws1', ws2', sa', post'.
    rewrite lower_idem in Hi, Hs.
    apply (proj1 (blanks_lower _)) in H1. apply (proj1 (blanks_lower _)) in H2.
    repeat split; assumption.
  - intros (pre & i & ws1 & ws2 & sa & post & -> & Hi & H1 & H2 & Hs).
    exists (PyStr.lower pre), (PyStr.lower i), (PyStr.lower ws1),
      (PyStr.lower ws2), (PyStr.lower sa), (PyStr.lower post).
    rewrite lower_idem, lower_idem. split.
    + rewrite !lower_app. cbn [PyStr.lower map]. now rewrite !lower_app.
    + repeat split; try assumption; apply (proj2 (blanks_lower _)); assumption.
Qed.

Lemma bool_iff (a b : bool) : (a = true <-> b = true) -> a = b.
Proof.
  destruct a, b; intros [H1 H2]; try reflexivity;
    [symmetry; apply H1; reflexivity | apply H2; reflexivity].
Qed.

Lemma search_word_lower (w t : str) :
  head_word w = true -> last_word w = true ->
  Re.search (Re.seq [Re.Wb; Re.seq (map Re.chr_i w); Re.Wb]) (PyStr.lower t)
  = Re.search (Re.seq [Re.Wb; Re.seq (map Re.chr_i w); Re.Wb]) t.
Proof.
  intros Hh Hl. apply bool_iff.
  rewrite !(ReFacts.search_word _ _ Hh Hl). apply standalone_lower.
Qed.

Lemma search_word2_lower (w1 w2 t : str) :
  head_word w1 = true -> last_word w1 = true ->
  head_word w2 = true -> last_word w2 = true ->
  Re.search (Re.seq [Re.Wb;
                     Re.Grp (Re.Alt (Re.seq (map Re.chr_i w1))
                                    (Re.seq (map Re.chr_i w2)));
                     Re.Wb]) (PyStr.lower t)
  = Re.search (Re.seq [Re.Wb;
                       Re.Grp (Re.Alt (Re.seq (map Re.chr_i w1))
                                      (Re.seq (map Re.chr_i w2)));
                       Re.Wb]) t.
Proof.
  intros A B C D. apply bool_iff.
  rewrite !(ReFacts.search_word2 _ _ _ A B C D).
  now rewrite !standalone_lower.
Qed.

Lemma search_serie_lower (serie t : str) :
  Re.search
    (Re.seq [Re.lit_i "Italy"; Re.Star Re.space; Re.chr_i "-";
             Re.Star Re.space; Re.seq (map Re.chr_i serie)]) (PyStr.lower t)
  = Re.search
      (Re.seq [Re.lit_i "Italy"; Re.Star Re.space; Re.chr_i "-";
               Re.Star Re.space; Re.seq (map Re.chr_i serie)]) t.
Proof.
  apply bool_iff. rewrite !ReFacts.search_serie. apply serie_marker_lower.
Qed.

Lemma detect_lower (t : str) :
  detect_inline_competition (PyStr.lower t) = detect_inline_competition t.
Proof.
  pose proof (search_word_lower (py "Champions League") t eq_refl eq_refl) as H1.
  pose proof (search_word_lower (py "Europa League") t eq_refl eq_refl) as H2.
  pose proof (search_word_lower (py "Conference League") t eq_refl eq_refl)
    as H3.
  pose proof (search_word_lower (py "Coppa Italia") t eq_refl eq_refl) as H4.
  pose proof (search_serie_lower (py "Serie A") t) as H5.
  pose proof (search_serie_lower (py "Serie B") t) as H6.
  pose proof (search_serie_lower (py "Serie C") t) as H7.
  unfold detect_inline_competition, INLINE_COMPETITION_PATTERNS.
  cbn [first_label]. unfold Re.lit_i in *.
  rewrite H1, H2, H3, H4, H5, H6, H7. reflexivity.
Qed.

Lemma motogp_lower (t : str) :
  Re.search RX_MOTOGP (PyStr.lower t) = Re.search RX_MOTOGP t.
Proof. exact (search_word_lower (py "motogp") t eq_refl eq_refl). Qed.

Lemma f1_lower (t : str) : Re.search RX_F1 (PyStr.lower t) = Re.search RX_F1 t.
Proof.
  exact (search_word2_lower (py "f1") (py "formula 1") t
           eq_refl eq_refl eq_refl eq_refl).
Qed.

Lemma tennis_lower (t : str) :
  Re.search RX_TENNIS (PyStr.lower t) = Re.search RX_TENNIS t.
Proof.
  exact (search_word2_lower (py "ATP") (py "WTA") t
           eq_refl eq_refl eq_refl eq_refl).
Qed.

(** *** Team names *)

Lemma lower_trimmed (s : str) : trimmed s -> trimmed (PyStr.lower s).
Proof.
  unfold trimmed. intros [H1 H2]. split.
  - destruct s as [| c s]; [exact I |]. cbn [PyStr.lower map].
    now rewrite isspace_lower.
  - change (last_or None (PyStr.lower s))
      with (last_or (option_map Chr.lower None) (PyStr.lower s)).
    rewrite ReFacts.last_or_lower.
    destruct (last_or None s) as [c |]; [| exact I].
    cbn [option_map]. now rewrite isspace_lower.
Qed.

Lemma lower_no_upper (s : str) :
  Forall (fun c => Chr.isupper c = false) (PyStr.lower s).
Proof.
  apply Forall_forall. intros c Hc. apply in_map_iff in Hc.
  destruct Hc as (x & <- & _). apply SlugFacts.isupper_lower.
Qed.

End RecordFacts.

(** * Further properties of the script *)

Module Extras.

Import Live Datetime Spec GameFacts StrFacts LoopFacts RecordFacts Examples.

(** X1: [main] is the traversal of the events in the order day, category,
    event: a run that ends well has applied the loop body to every event
    and returns the records in that order; a run that raises has stopped at
    the first event whose loop body raises. *)
Theorem main_is_traversal pytz now sched :
  (forall out,
     main pytz now sched = Ok out <->
     exists rs,
       Forall2 (fun j r => run_job pytz now j = Ok r) (jobs_of sched) rs /\
       out = flat_map (fun r => match r with Some e => [e] | None => [] end)
               rs) /\
  (forall x,
     main pytz now sched = Raise x <->
     exists pre j post,
       jobs_of sched = pre ++ j :: post /\
       Forall (fun j' => is_ok (run_job pytz now j')) pre /\
       run_job pytz now j = Raise x).
Proof.
  rewrite main_collect. split; intros y; [apply collect_ok | apply collect_raise].
Qed.

(** X2: the schedule is processed day after day: the output for two
    schedules put end to end is the output of the first followed by the
    output of the second, and an exception of the first hides the second. *)
Theorem main_concat pytz now s1 s2 :
  main pytz now (s1 ++ s2) =
  (l1 <- main pytz now s1 ;; l2 <- main pytz now s2 ;; Ok (l1 ++ l2)).
Proof.
  rewrite !main_collect. unfold jobs_of. rewrite flat_map_app.
  apply collect_app.
Qed.

(** X3: the events of a category that is neither whitelisted nor the
    container never add a record, whatever their dates, times and
    channels: the output stays as it is when each of them is an object
    with a title that is a string, absent or false, and the loop raises
    [AttributeError] otherwise, although the category is not wanted. *)
Theorem unlisted_category_skipped pytz now day c events acc :
  elem (PyStr.lower c) SOCCER_CONTAINER_NAMES = false ->
  should_include_category c = false ->
  for_games pytz now day c
    (elem (PyStr.lower c) SOCCER_CONTAINER_NAMES)
    (should_include_category c) events acc
  = if forallb has_text events then Ok acc else Raise AttributeError.
Proof.
  intros Hs Hw. rewrite Hs, Hw. revert acc.
  induction events as [| x rest IH]; intros acc; [reflexivity |].
  cbn [for_games forallb].
  destruct x as [ev tm chs |]; [| reflexivity].
  destruct ev as [| s |]; cbn [has_text andb].
  - change (process_game pytz now day c false false
              (GameDict EventMissing tm chs)) with (@Ok (option entry) None).
    cbn [bind]. apply IH.
  - assert (E : process_game pytz now day c false false
                  (GameDict (EventStr s) tm chs) = Ok None).
    { cbn [process_game event_text bind].
      destruct (negb (truthy (PyStr.strip s))); reflexivity. }
    rewrite E. cbn [bind]. apply IH.
  - reflexivity.
Qed.

Lemma unlisted_category_skipped_witness :
  for_games None now0 day0 (py "Basketball")
    (elem (PyStr.lower (py "Basketball")) SOCCER_CONTAINER_NAMES)
    (should_include_category (py "Basketball"))
    [Game game_hour_24; Game game_no_channel_bad_time] [] = Ok [] /\
  for_games None now0 day0 (py "Basketball")
    (elem (PyStr.lower (py "Basketball")) SOCCER_CONTAINER_NAMES)
    (should_include_category (py "Basketball"))
    [Game game_hour_24; GameOther] [] = Raise AttributeError.
Proof.
  split.
  - exact (unlisted_category_skipped None now0 day0 (py "Basketball")
             [Game game_hour_24; Game game_no_channel_bad_time] []
             eq_refl eq_refl).
  - exact (unlisted_category_skipped None now0 day0 (py "Basketball")
             [Game game_hour_24; GameOther] [] eq_refl eq_refl).
Defined.

(** X4: the two ways into the loop body exclude each other: a label that
    is the container in some letter case is not on the whitelist. *)
Theorem container_not_whitelisted (c : str) :
  elem (PyStr.lower c) SOCCER_CONTAINER_NAMES = true ->
  should_include_category c = false.
Proof.
  intros H. apply elem_In in H. destruct H as [H | []].
  destruct (should_include_category c) eqn:E; [| reflexivity].
  apply elem_In in E. unfold BASE_CATEGORIES in E.
  repeat (destruct E as [<- | E]; [discriminate H |]). destruct E.
Qed.

Lemma container_not_whitelisted_witness :
  should_include_category (py "SOCCER") = false.
Proof. apply (@container_not_whitelisted (py "SOCCER")). reflexivity. Defined.

(** X5: the whitelist and the category mapping agree: a label that maps
    to a category is on the whitelist, and a label of the whitelist maps
    to a category for every title, the two motor-sport labels apart, which
    need their token in the title. *)
Theorem map_category_whitelist (c t : str) :
  (map_category c t <> None -> should_include_category c = true) /\
  (should_include_category c = true -> is_motor c = false ->
   map_category c t <> None) /\
  (is_motor c = true -> should_include_category c = true).
Proof.
  split; [| split].
  - unfold map_category.
    destruct (PyStr.eqb c (py "Italy - Serie A")) eqn:E1;
      [apply eqb_eq in E1; subst; reflexivity |].
    destruct (PyStr.eqb c (py "Italy - Serie B")) eqn:E2;
      [apply eqb_eq in E2; subst; reflexivity |].
    destruct (PyStr.eqb c (py "Italy - Serie C")) eqn:E3;
      [apply eqb_eq in E3; subst; reflexivity |].
    destruct (mem c COPPA_LOGOS) eqn:E4.
    { apply mem_In in E4. intros _. simpl in E4.
      repeat (destruct E4 as [<- | E4]; [reflexivity |]). destruct E4. }
    destruct (PyStr.eqb c (py "Tennis")) eqn:E5;
      [apply eqb_eq in E5; subst; reflexivity |].
    destruct (is_motor c) eqn:E6.
    { apply is_motor_cases in E6. destruct E6 as [-> | ->]; reflexivity. }
    intros H. now elim H.
  - intros H Hm. apply elem_In in H. unfold BASE_CATEGORIES in H.
    repeat (destruct H as [<- | H]; [first [discriminate | discriminate Hm] |]).
    destruct H.
  - intros H. apply is_motor_cases in H. destruct H as [-> | ->]; reflexivity.
Qed.

Lemma map_category_whitelist_witness :
  should_include_category (py "Coppa Italia") = true.
Proof.
  apply (proj1 (@map_category_whitelist (py "Coppa Italia") (py "Final"))).
  discriminate.
Defined.

(** X6: a label found in a title of the container is one of the seven
    inline labels; it is on the whitelist, it is not Tennis and it maps to
    one of [coppe], [seriea], [serieb], [seriec] whatever the title: an
    event of the container with a marker is never dropped for its
    category. *)
Theorem marker_has_category (t l : str) :
  detect_inline_competition t = Some l ->
  In l inline_labels /\
  should_include_category l = true /\
  l <> py "Tennis" /\
  forall t', exists cat,
    map_category l t' = Some cat /\ In cat container_categories.
Proof.
  intros H. apply first_label_In in H. split; [exact H |].
  unfold INLINE_COMPETITION_PATTERNS in H. cbn [map snd In] in H.
  repeat (destruct H as [<- | H];
          [split; [reflexivity |]; split; [discriminate |];
           intros t'; eexists; split; [reflexivity | simpl; tauto] |]).
  destruct H.
Qed.

Lemma marker_has_category_witness :
  In (py "UEFA Europa League") inline_labels.
Proof.
  apply (@marker_has_category (py "Europa League: Roma vs Ajax")
           (py "UEFA Europa League")).
  reflexivity.
Defined.

(** X7: an event whose title is missing, null, empty or made of blanks
    is skipped before anything else is looked at: it gives no record and
    cannot raise, whatever its time and its day label. *)
Theorem blank_title_skipped pytz now day category_src soccer whitelisted
    (g : game) :
  match event g with
  | Some s => blank s = true
  | None => True
  end ->
  process_game pytz now day category_src soccer whitelisted g = Ok None.
Proof.
  intros H. rewrite process_game_Game.
  assert (E : raw_title g = []).
  { unfold raw_title. destruct (event g) as [s |]; [| reflexivity].
    now apply strip_blank. }
  now rewrite E.
Qed.

Lemma blank_title_skipped_witness :
  process_game None now0 (py "no date") (py "Tennis") false true
    game_blank_title = Ok None.
Proof.
  apply (@blank_title_skipped None now0 (py "no date") (py "Tennis") false
           true game_blank_title).
  reflexivity.
Defined.

Lemma rome_string_none (start : datetime) :
  rome_string None start = Ok (strftime_dmHM start ++ py " UTC").
Proof. reflexivity. Qed.

(** X8: without [pytz] the loop body raises in three cases only, met in
    this order: [AttributeError] for an event that is no object or whose
    title is a true value that is no string; the exception of [datetime]
    for an event that has a title, passes the tests on its category
    (whitelist or marker, Tennis tag, mapping) and has date fields that
    [datetime] refuses, whatever its channels; [TypeError] for such an event
    with an accepted date and channels that cannot be iterated. *)
Theorem loop_body_raises now day category_src soccer whitelisted x e :
  process_game None now day category_src soccer whitelisted x = Raise e <->
  (has_text x = false /\ e = AttributeError) \/
  exists ev tm chs raw eff mapped,
    x = GameDict ev tm chs /\
    event_text ev = Ok raw /\ raw <> [] /\
    effective_category category_src soccer whitelisted raw = Some eff /\
    (eff = py "Tennis" -> Re.search RX_TENNIS raw = true) /\
    map_category eff raw = Some mapped /\
    (parse_event_datetime None now day (time_or_default tm) = Raise e \/
     (is_ok (parse_event_datetime None now day (time_or_default tm)) /\
      chs = ChannelsOther /\ e = TypeError)).
Proof.
  destruct x as [ev tm chs |].
  2:{ split.
      - intros [= <-]. left. now split.
      - intros [[_ ->] | (ev & tm & chs & raw & eff & mapped & H & _)];
          [reflexivity | discriminate H]. }
  rewrite process_game_raise_dict. split.
  - intros [[-> ->] | (raw & eff & mapped & H1 & H2 & H3 & H4 & H5 & H)].
    + left. now split.
    + right. exists ev, tm, chs, raw, eff, mapped.
      repeat (split; [first [reflexivity | assumption] |]).
      destruct H as [H | (start & Hs & [H | (_ & -> & ->)])].
      * now left.
      * rewrite rome_string_none in H. discriminate H.
      * right. split; [now exists start | now split].
  - intros [[H ->] | (ev' & tm' & chs' & raw & eff & mapped & [= <- <- <-]
                      & H1 & H2 & H3 & H4 & H5 & H)].
    + left. split; [| reflexivity]. now destruct ev.
    + right. exists raw, eff, mapped.
      repeat (split; [assumption |]).
      destruct H as [H | ([start Hs] & -> & ->)]; [now left |].
      right. exists start. split; [exact Hs |]. right.
      split; [| now split]. rewrite rome_string_none. now eexists.
Qed.



Lemma run_job_some pytz now j e :
  run_job pytz now j = Ok (Some e) ->
  exists g eff mapped start rome,
    raw_title g <> [] /\
    map_category eff (raw_title g) = Some mapped /\
    streams_of (extract_event_title (raw_title g)) eff (channels g) <> [] /\
    e = record_of g eff mapped start rome.
Proof.
  destruct j as [[day raw] x]. cbn [run_job]. intros H.
  destruct (process_game_some_shape _ _ _ _ _ _ _ _ H) as [g ->].
  apply process_game_some in H.
  destruct H as (eff & mapped & start & rome & Hraw & _ & _ & Hmap & _ & _
                 & Hst & ->).
  exists g, eff, mapped, start, rome. now repeat split.
Qed.

(** X10: every record that [main] hands to [json.dump] has a name that
    is not empty and has no blank at its ends, also where the name is what
    is left of the title behind its time prefix. *)
Theorem written_names_trimmed pytz now sched out :
  main pytz now sched = Ok out ->
  Forall (fun e => name e <> [] /\ trimmed (name e)) out.
Proof.
  apply main_Forall. intros j e _ H. apply run_job_some in H.
  destruct H as (g & eff & mapped & start & rome & Hraw & _ & _ & ->).
  cbn [record_of name].
  apply extract_event_title_nonempty; [exact Hraw | apply raw_title_trimmed].
Qed.

Lemma written_names_trimmed_witness :
  exists out,
    main None now0 sched0 = Ok out /\ out <> [] /\
    Forall (fun e => name e <> [] /\ trimmed (name e)) out.
Proof.
  destruct (main None now0 sched0) as [out | x] eqn:E;
    [| vm_compute in E; discriminate E].
  exists out. split; [reflexivity |]. split.
  - intros ->. vm_compute in E. discriminate E.
  - exact (written_names_trimmed None now0 sched0 out E).
Defined.

(** X11: the identifier of every written record is made of lower-case
    letters, digits and hyphens only, and does not start with a hyphen
    unless the slug of the title is empty; its slug has at most 60
    characters. *)
Theorem written_ids_plain pytz now sched out :
  main pytz now sched = Ok out ->
  Forall (fun e =>
            Forall (fun c => id_char c = true) (id e) /\
            exists date,
              id e = slug (name e) ++ py "-" ++ date /\
              length (slug (name e)) <= 60 /\
              match slug (name e) with
              | [] => True
              | c :: _ => c <> "-"%char
              end) out.
Proof.
  apply main_Forall. intros j e _ H. apply run_job_some in H.
  destruct H as (g & eff & mapped & start & rome & _ & _ & _ & ->).
  cbn [record_of id name]. rewrite SlugFacts.build_event_id_slug. split.
  - apply Forall_app. split; [apply slug_chars |].
    apply Forall_app. split; [repeat constructor | apply date_chars].
  - exists (strftime_Ymd start). split; [reflexivity |].
    split; [| apply slug_head].
    unfold slug. apply firstn_le_length.
Qed.

Lemma written_ids_plain_witness :
  exists out,
    main None now0 sched0 = Ok out /\ out <> [] /\
    Forall (fun e => Forall (fun c => id_char c = true) (id e)) out.
Proof.
  destruct (main None now0 sched0) as [out | x] eqn:E;
    [| vm_compute in E; discriminate E].
  exists out. split; [reflexivity |]. split.
  - intros ->. vm_compute in E. discriminate E.
  - eapply Forall_impl;
      [| exact (written_ids_plain None now0 sched0 out E)].
    intros e [H _]. exact H.
Defined.

(** X12: every stream of every written record carries the URL
    [https://thedaddy.click/stream/stream-<id>.php] with a non-empty
    identifier, and a non-empty title. *)
Theorem written_streams_shape pytz now sched out :
  main pytz now sched = Ok out ->
  Forall (fun e =>
            Forall (fun st =>
                      (exists i, i <> [] /\
                                 url st = STREAM_BASE ++ i ++ py ".php") /\
                      stream_title st <> []) (streams e)) out.
Proof.
  apply main_Forall. intros j e _ H. apply run_job_some in H.
  destruct H as (g & eff & mapped & start & rome & _ & _ & _ & ->).
  cbn [record_of streams]. apply Forall_forall. intros st Hst.
  apply stream_shape in Hst. destruct Hst as (H1 & H2 & _). now split.
Qed.

Lemma written_streams_shape_witness :
  exists out,
    main None now0 sched0 = Ok out /\ out <> [] /\
    Forall (fun e =>
              Forall (fun st =>
                        (exists i, i <> [] /\
                                   url st = STREAM_BASE ++ i ++ py ".php") /\
                        stream_title st <> []) (streams e)) out.
Proof.
  destruct (main None now0 sched0) as [out | x] eqn:E;
    [| vm_compute in E; discriminate E].
  exists out. split; [reflexivity |]. split.
  - intros ->. vm_compute in E. discriminate E.
  - exact (written_streams_shape None now0 sched0 out E).
Defined.

(** X13: the exclusion keywords never reach the output: in no written
    record does ['college'] or ['youth'] occur, in any letter case, in the
    name or in the title of a stream (a keyword in the title of the event
    drops all its channels, hence the event). *)
Theorem written_records_keyword_free pytz now sched out :
  main pytz now sched = Ok out ->
  Forall (fun e =>
            ~ occurs_i (py "college") (name e) /\
            ~ occurs_i (py "youth") (name e) /\
            Forall (fun st =>
                      ~ occurs_i (py "college") (stream_title st) /\
                      ~ occurs_i (py "youth") (stream_title st))
                   (streams e)) out.
Proof.
  apply main_Forall. intros j e _ H. apply run_job_some in H.
  destruct H as (g & eff & mapped & start & rome & _ & _ & Hst & ->).
  cbn [record_of streams name].
  assert (K : forall s, has_keyword s = false ->
                        ~ occurs_i (py "college") s /\
                        ~ occurs_i (py "youth") s).
  { intros s Hs. split; intros Ho;
      assert (F : has_keyword s = true)
        by (apply Claims.has_keyword_occurs; tauto);
      congruence. }
  assert (T : has_keyword (extract_event_title (raw_title g)) = false).
  { destruct (streams_of (extract_event_title (raw_title g)) eff (channels g))
      as [| st sts] eqn:E; [now elim Hst |].
    assert (Hin : In st (streams_of (extract_event_title (raw_title g)) eff
                           (channels g))) by (rewrite E; now left).
    apply stream_shape in Hin. tauto. }
  destruct (K _ T) as [T1 T2]. split; [exact T1 |]. split; [exact T2 |].
  apply Forall_forall. intros st Hin. apply stream_shape in Hin.
  apply K. tauto.
Qed.

Lemma written_records_keyword_free_witness :
  exists out,
    main None now0 sched0 = Ok out /\ out <> [] /\
    Forall (fun e => ~ occurs_i (py "youth") (name e)) out.
Proof.
  destruct (main None now0 sched0) as [out | x] eqn:E;
    [| vm_compute in E; discriminate E].
  exists out. split; [reflexivity |]. split.
  - intros ->. vm_compute in E. discriminate E.
  - eapply Forall_impl;
      [| exact (written_records_keyword_free None now0 sched0 out E)].
    intros e (_ & H & _). exact H.
Defined.

(** X14: a logo, when there is one, is a file of the logo repository
    whose name ends in [.png] and holds no blank; no logo is the empty
    text. *)
Theorem logo_is_png_file (c t l : str) :
  build_logo c t = Some l ->
  exists file,
    l = LOGO_BASE ++ py "/" ++ file /\
    ends_with (py ".png") file /\ ~ In " "%char l.
Proof.
  intros H. apply build_logo_shape in H. destruct H as (file & -> & Hf).
  apply png_name_spec in Hf. destruct Hf as [H1 H2].
  exists file. split; [reflexivity |]. split; [exact H1 |].
  intros Hin. apply in_app_or in Hin. destruct Hin as [Hin | Hin].
  - revert Hin. unfold LOGO_BASE.
    assert (E : existsb (Ascii.eqb " ")
                  (py "https://raw.githubusercontent.com/qwertyuiop8899/logo/main")
                = false) by reflexivity.
    intros Hin.
    assert (F : existsb (Ascii.eqb " ")
                  (py "https://raw.githubusercontent.com/qwertyuiop8899/logo/main")
                = true).
    { apply existsb_exists. exists " "%char. split; [exact Hin | reflexivity]. }
    congruence.
  - destruct Hin as [Hin | Hin]; [discriminate Hin | exact (H2 Hin)].
Qed.

Lemma logo_is_png_file_witness :
  exists file,
    LOGO_BASE ++ py "/Roma_vs_Inter.png" = LOGO_BASE ++ py "/" ++ file /\
    ends_with (py ".png") file /\
    ~ In " "%char (LOGO_BASE ++ py "/Roma_vs_Inter.png").
Proof.
  apply (logo_is_png_file (py "Italy - Serie A")
           (py "AS Roma vs FC Internazionale")).
  vm_compute. reflexivity.
Defined.

(** X15: the logo follows the category: a label and a title without
    category have no logo, and for the two motor-sport labels the logo is
    [MotoGP.png] exactly when the category is [motogp] and [F1.png]
    exactly when it is [f1]. *)
Theorem logo_follows_category (c t : str) :
  (map_category c t = None -> build_logo c t = None) /\
  (is_motor c = true ->
   (map_category c t = Some (py "motogp") <->
    build_logo c t = Some (LOGO_BASE ++ py "/MotoGP.png")) /\
   (map_category c t = Some (py "f1") <->
    build_logo c t = Some (LOGO_BASE ++ py "/F1.png"))).
Proof.
  assert (M : is_motor c = true ->
              (map_category c t = None -> build_logo c t = None) /\
              (map_category c t = Some (py "motogp") <->
               build_logo c t = Some (LOGO_BASE ++ py "/MotoGP.png")) /\
              (map_category c t = Some (py "f1") <->
               build_logo c t = Some (LOGO_BASE ++ py "/F1.png"))).
  { intros Hm. rewrite (map_category_motor c t Hm), (build_logo_motor c t Hm).
    destruct (Re.search RX_MOTOGP t); [| destruct (Re.search RX_F1 t)];
      (split; [try discriminate; reflexivity |]);
      split; split; intros H; first [reflexivity | discriminate H]. }
  split; [| intros Hm; exact (proj2 (M Hm))].
  intros Hn. destruct (is_motor c) eqn:Hm; [exact (proj1 (M eq_refl) Hn) |].
  destruct (build_logo c t) as [l |] eqn:Hl; [| reflexivity].
  assert (Hw : should_include_category c = true)
    by (apply (build_logo_whitelisted c t); congruence).
  apply elem_In in Hw. unfold BASE_CATEGORIES in Hw.
  repeat (destruct Hw as [<- | Hw];
          [first [discriminate Hn | discriminate Hm] |]).
  destruct Hw.
Qed.

Lemma logo_follows_category_witness :
  map_category (py "motor sports") (py "MotoGP Mugello") = Some (py "motogp") /\
  build_logo (py "motor sports") (py "MotoGP Mugello")
  = Some (LOGO_BASE ++ py "/MotoGP.png").
Proof.
  split; [reflexivity |].
  apply (proj1 (proj1 (proj2 (logo_follows_category (py "motor sports")
                                (py "MotoGP Mugello")) eq_refl))).
  reflexivity.
Defined.

Lemma run_job_parts pytz now j e :
  run_job pytz now j = Ok (Some e) ->
  exists day g eff mapped start rome,
    parse_event_datetime pytz now day (time_str g) = Ok start /\
    rome_string pytz start = Ok rome /\
    e = record_of g eff mapped start rome.
Proof.
  destruct j as [[day raw] x]. cbn [run_job]. intros H.
  destruct (process_game_some_shape _ _ _ _ _ _ _ _ H) as [g ->].
  apply process_game_some in H.
  destruct H as (eff & mapped & start & rome & _ & _ & _ & _ & Hs & Hr
                 & _ & ->).
  exists day, g, eff, mapped, start, rome. now repeat split.
Qed.

(** X16: a time written [HH:MM] is read back as its hour and its minute,
    for every pair of two-digit numbers; a time without colon, and a time
    that is no string, are read as 0:00. *)
Theorem parse_time_round_trip :
  (forall h m : nat,
     h < 100 -> m < 100 ->
     parse_time (TimeStr (PyStr.pad 2 (N.of_nat h) ++ py ":" ++
                          PyStr.pad 2 (N.of_nat m)))
     = (Z.of_nat h, Z.of_nat m)) /\
  (forall s, ~ In ":"%char s -> parse_time (TimeStr s) = (0, 0)%Z) /\
  parse_time TimeOther = (0, 0)%Z.
Proof.
  split; [| split; [| reflexivity]].
  - intros h m Hh Hm.
    assert (Ha : In h (seq 0 100)) by (apply in_seq; lia).
    assert (Hb : In m (seq 0 100)) by (apply in_seq; lia).
    pose proof times_read as H.
    eapply forallb_In in H; [| exact Ha]. cbv beta in H.
    eapply forallb_In in H; [| exact Hb]. cbv beta in H.
    destruct (parse_time _) as [h' m'].
    apply andb_prop in H. destruct H as [H1 H2].
    apply Z.eqb_eq in H1, H2. now subst.
  - intros s Hs. unfold parse_time, PyStr.split.
    change (py ":") with [":"%char]. rewrite (split_no_sep _ s [] Hs).
    cbn [rev app map]. now destruct (PyStr.int s).
Qed.

Lemma parse_time_round_trip_witness :
  parse_time (TimeStr (PyStr.pad 2 (N.of_nat 20) ++ py ":" ++
                       PyStr.pad 2 (N.of_nat 45)))
  = (Z.of_nat 20, Z.of_nat 45).
Proof. apply (proj1 parse_time_round_trip 20 45); lia. Defined.

(** X18: without [pytz], the start of every written record has the 20
    characters of [YYYY-MM-DDTHH:MM:00Z], and its description ends in
    [' UTC']. *)
Theorem written_starts_utc now sched out :
  main None now sched = Ok out ->
  Forall (fun e =>
            length (eventStart e) = 20 /\
            ends_with (py ":00Z") (eventStart e) /\
            ends_with (py " UTC") (description e)) out.
Proof.
  apply main_Forall. intros j e _ H. apply run_job_parts in H.
  destruct H as (dlabel & g & eff & mapped & start & rome & Hs & Hr & ->).
  cbn [record_of eventStart description].
  rewrite Claims.event_start_Z.
  apply parse_event_datetime_valid in Hs.
  destruct Hs as (Hy & Hm & Hd & Hh & Hmi & Hsec).
  pose proof (days_in_month_le (year start) (month start)) as Hle.
  split; [| split].
  - rewrite length_app, isoformat_length by lia. reflexivity.
  - unfold isoformat_seconds. rewrite Hsec.
    exists (pad 4 (year start) ++ py "-" ++ pad 2 (month start) ++ py "-" ++
            pad 2 (day start) ++ py "T" ++ pad 2 (hour start) ++ py ":" ++
            pad 2 (minute start)).
    change (pad 2 0) with (py "00").
    repeat rewrite <- app_assoc. reflexivity.
  - cbn [rome_string] in Hr. injection Hr as <-.
    exists (eff ++ py " " ++ strftime_dmHM start).
    repeat rewrite <- app_assoc. reflexivity.
Qed.

Lemma written_starts_utc_witness :
  exists out,
    main None now0 sched0 = Ok out /\ out <> [] /\
    Forall (fun e => length (eventStart e) = 20) out.
Proof.
  destruct (main None now0 sched0) as [out | x] eqn:E;
    [| vm_compute in E; discriminate E].
  exists out. split; [reflexivity |]. split.
  - intros ->. vm_compute in E. discriminate E.
  - eapply Forall_impl; [| exact (written_starts_utc now0 sched0 out E)].
    intros e [H _]. exact H.
Defined.

(** X19: a category label without ['<'] is only trimmed; followed by the
    residue ['</span>'] it is cleaned to the same label; a cleaned label
    has no blank at its ends. *)
Theorem clean_category_key_residue :
  (forall c, ~ In "<"%char c -> clean_category_key c = PyStr.strip c) /\
  (forall c, ~ In "<"%char c ->
             clean_category_key (c ++ py "</span>") = PyStr.strip c) /\
  (forall raw, trimmed (clean_category_key raw)).
Proof.
  split; [| split].
  - intros c Hc. unfold clean_category_key.
    change (py "</span>") with ("<"%char :: py "/span>").
    rewrite (replace_absent _ _ _ c Hc). unfold Re.sub.
    now rewrite (sub_tag_absent _ c None Hc).
  - intros c Hc. unfold clean_category_key.
    change (py "</span>") with ("<"%char :: py "/span>").
    rewrite (replace_at_end "<"%char (py "/span>") (py "") c Hc).
    rewrite app_nil_r. unfold Re.sub.
    now rewrite (sub_tag_absent _ c None Hc).
  - intros raw. apply strip_trimmed.
Qed.

Lemma clean_category_key_residue_witness :
  clean_category_key (py " Tennis " ++ py "</span>") = PyStr.strip (py " Tennis ").
Proof.
  apply (proj1 (proj2 clean_category_key_residue) (py " Tennis ")).
  intros H. simpl in H.
  repeat (destruct H as [H | H]; [discriminate H |]). destruct H.
Defined.

(** X20: a month read from a day label is a number from 1 to 12, and a
    label whose month is not recognised gives no day and no year either:
    the three fields then all come from the current date. *)
Theorem day_fields_month_first (day_str : str) (m d y : option Z) :
  parse_day_fields day_str = (m, d, y) ->
  (forall k, m = Some k -> (1 <= k <= 12)%Z) /\
  (m = None -> d = None /\ y = None).
Proof.
  rewrite Claims.parse_day_fields_layout. unfold layout.
  assert (R : forall a k, month_number a = Some k -> (1 <= k <= 12)%Z).
  { intros a k H. apply index_from_range in H. cbn in H. lia. }
  destruct (tokens day_str) as [| w [| a [| b [| yy rest]]]];
    try (intros [= <- <- <-]; split; [discriminate | now split]).
  destruct (month_number a) as [k |] eqn:Ea.
  - intros [= <- <- <-]. split; [| discriminate].
    intros k' [= <-]. exact (R a k Ea).
  - destruct (month_number b) as [k |] eqn:Eb.
    + intros [= <- <- <-]. split; [| discriminate].
      intros k' [= <-]. exact (R b k Eb).
    + intros [= <- <- <-]. split; [discriminate | now split].
Qed.

Lemma day_fields_month_first_witness : (1 <= 1 <= 12)%Z.
Proof.
  refine (proj1 (day_fields_month_first day0 (Some 1%Z) (Some 1%Z)
                   (Some 2024%Z) _) 1%Z eq_refl).
  vm_compute. reflexivity.
Defined.

(** X21: the channels of an event are filtered one by one and in
    order: the streams of two lists of channels put end to end are the
    streams of the first followed by the streams of the second, and there
    are never more streams than channels. *)
Theorem channels_filtered_in_order title eff :
  (forall a b,
     streams_of title eff (a ++ b)
     = streams_of title eff a ++ streams_of title eff b) /\
  (forall chs, length (streams_of title eff chs) <= length chs).
Proof. split; [apply streams_of_app | apply streams_of_length]. Qed.

(** X22: the letter case of a title does not matter to the way an event
    is classified: two titles that differ only in letter case get the
    same effective label, the same category and the same answer of the
    tennis test. *)
Theorem title_case_irrelevant (c : str) (soccer whitelisted : bool)
    (t t' : str) :
  PyStr.lower t = PyStr.lower t' ->
  effective_category c soccer whitelisted t
  = effective_category c soccer whitelisted t' /\
  map_category c t = map_category c t' /\
  Re.search RX_TENNIS t = Re.search RX_TENNIS t'.
Proof.
  intros E. split; [| split].
  - unfold effective_category. destruct soccer; [| reflexivity].
    rewrite <- (detect_lower t), <- (detect_lower t'), E. reflexivity.
  - unfold map_category.
    rewrite <- (motogp_lower t), <- (motogp_lower t'),
      <- (f1_lower t), <- (f1_lower t'), E. reflexivity.
  - rewrite <- (tennis_lower t), <- (tennis_lower t'), E. reflexivity.
Qed.

Lemma title_case_irrelevant_witness :
  effective_category (py "Soccer") true false (py "COPPA ITALIA: Milan vs Inter")
  = effective_category (py "Soccer") true false
      (py "Coppa Italia: MILAN vs inter") /\
  map_category (py "Soccer") (py "COPPA ITALIA: Milan vs Inter")
  = map_category (py "Soccer") (py "Coppa Italia: MILAN vs inter") /\
  Re.search RX_TENNIS (py "COPPA ITALIA: Milan vs Inter")
  = Re.search RX_TENNIS (py "Coppa Italia: MILAN vs inter").
Proof.
  apply (title_case_irrelevant (py "Soccer") true false
           (py "COPPA ITALIA: Milan vs Inter")
           (py "Coppa Italia: MILAN vs inter")).
  reflexivity.
Defined.

(** X23: a normalised team name has no capital letter and no blank at
    its ends, whether it comes from the table of special names or from
    the stripped name. *)
Theorem normalize_team_lower_trimmed (team : str) :
  Forall (fun c => Chr.isupper c = false) (normalize_team team) /\
  trimmed (normalize_team team).
Proof.
  unfold normalize_team.
  destruct (get TEAM_SPECIAL (PyStr.lower (strip_prefixes team)))
    as [v |] eqn:E.
  - apply get_key in E. unfold TEAM_SPECIAL in E.
    repeat (destruct E as [E | E];
            [injection E as _ <-; split;
             [repeat constructor | split; reflexivity] |]).
    destruct E.
  - split; [apply lower_no_upper |].
    apply lower_trimmed. unfold strip_prefixes. apply strip_trimmed.
Qed.

End Extras.
